(** * extractdtb: device-tree blob extraction and naming

    A shallow embedding of [src/extractdtb.py].  Byte buffers are
    [list byte], Python integers are [Z] (offsets, where [-1] is the
    not-found value of [bytes.find]) or [nat] (loop indices and use
    counts, which are never negative), Python [str] values are [string]
    whose characters are read as code points below 256, the registry
    [used_names] is a [gmap string nat], and the effects of [main] (console
    lines, file-system calls, the external [dtc] process) are threaded
    through a small trace-and-error monad over an explicit [World]. *)

From Stdlib Require Import ZArith Strings.Ascii Strings.Byte.
From stdpp Require Import base numbers list sorting strings gmap pretty.

Local Open Scope Z_scope.

(** ** The marker *)

(** [DTB_HEADER = b"\xd0\x0d\xfe\xed"] *)
Definition DTB_HEADER : list byte := [xd0; x0d; xfe; xed].

(** ** Python [bytes] primitives *)

(** [s.startswith(sub)] on the remaining buffer [s]. *)
Fixpoint startswith (s sub : list byte) {struct sub} : bool :=
  match sub, s with
  | [], _ => true
  | _ :: _, [] => false
  | a :: sub', b :: s' => Byte.eqb a b && startswith s' sub'
  end.

(** The scan of [bytes.find]: [s] is [content[i:]]; the lowest index at or
    after [i] where [sub] starts, or [-1]. *)
Fixpoint find_from (sub s : list byte) (i : Z) : Z :=
  if startswith s sub then i
  else match s with
       | [] => -1
       | _ :: s' => find_from sub s' (i + 1)
       end.

(** [content.find(sub, start)] for [0 <= start] (the only way [main] calls
    it): a start beyond the end finds nothing, not even the empty pattern. *)
Definition find (content sub : list byte) (start : Z) : Z :=
  if Z.of_nat (length content) <? start then -1
  else find_from sub (drop (Z.to_nat start) content) start.

(** [content[start:end]] for [0 <= start] and [0 <= end]: the slice is clipped
    to the buffer and empty when [end <= start]. *)
Definition slice (content : list byte) (start end_ : Z) : list byte :=
  take (Z.to_nat end_ - Z.to_nat start) (drop (Z.to_nat start) content).

(** ** Scanner: lines 87-91 of [main] *)

(** The [while dtb_next != -1] loop.  Each iteration appends the current
    offset and searches again from [dtb_next + 1].  [None] is fuel
    exhaustion. *)
Fixpoint scan_loop (fuel : nat) (content : list byte)
    (dtb_next : Z) (positions : list Z) : option (list Z) :=
  if dtb_next =? -1 then Some positions
  else match fuel with
       | O => None
       | S fuel' =>
           scan_loop fuel' content
             (find content DTB_HEADER (dtb_next + 1))
             (positions ++ [dtb_next])
       end.

(** [positions = []; dtb_next = content.find(DTB_HEADER); while ...] *)
Definition scan (content : list byte) : option (list Z) :=
  scan_loop (S (length content)) content (find content DTB_HEADER 0) [].

(** ** Splitter: lines 104-117 of [main] *)

(** [loop_positions = positions + [len(content)]] *)
Definition loop_positions (content : list byte) (positions : list Z) : list Z :=
  positions ++ [Z.of_nat (length content)].

(** The body of the [for] loop up to [chunk = content[start:end]]; indexing
    is in range for every [i < len(positions)], where Python would raise
    otherwise. *)
Definition chunk_at (content : list byte) (positions : list Z) (i : nat)
    : list byte :=
  let start := nth i positions 0 in
  let end_ := nth (S i) (loop_positions content positions) 0 in
  slice content start end_.

(** The chunks of all iterations [i in range(len(positions))], in order. *)
Definition regions (content : list byte) (positions : list Z)
    : list (list byte) :=
  chunk_at content positions <$> seq 0 (length positions).

(** ** Python [str] primitives *)

Definition dquote : ascii := "034"%char.
Definition newline : ascii := "010"%char.
Definition comma : ascii := ","%char.
Definition slash : ascii := "/"%char.
Definition dot : ascii := "."%char.

(** [str.isspace] on one character, which is also what [\s] matches in a
    [str] pattern and what [str.strip()] removes: the white space of
    Unicode, here for the code points below 256. *)
Definition isspace (c : ascii) : bool :=
  let n := nat_of_ascii c in
  ((9 <=? n) && (n <=? 13) || (28 <=? n) && (n <=? 32)
   || (n =? 133) || (n =? 160))%nat.

(** [str.lower] on one character, for the code points below 256: the
    letters A-Z and the capital letters of Latin-1 (all of 192-222 but the
    multiplication sign 215) move up by 32. *)
Definition lower_char (c : ascii) : ascii :=
  let n := nat_of_ascii c in
  if ((65 <=? n) && (n <=? 90)
      || (192 <=? n) && (n <=? 222) && negb (n =? 215))%nat
  then ascii_of_nat (n + 32) else c.

(** [s.lower()] *)
Fixpoint lower (s : string) : string :=
  match s with
  | EmptyString => EmptyString
  | String c s' => String (lower_char c) (lower s')
  end.

(** [s.lstrip()] *)
Fixpoint lstrip (s : string) : string :=
  match s with
  | EmptyString => EmptyString
  | String c s' => if isspace c then lstrip s' else s
  end.

(** [s.rstrip()] *)
Fixpoint rstrip (s : string) : string :=
  match s with
  | EmptyString => EmptyString
  | String c s' =>
      match rstrip s' with
      | EmptyString => if isspace c then EmptyString else String c EmptyString
      | r => String c r
      end
  end.

(** [s.strip()] *)
Definition strip (s : string) : string := rstrip (lstrip s).

(** [c in s] for a one-character [c]. *)
Fixpoint contains (c : ascii) (s : string) : bool :=
  match s with
  | EmptyString => false
  | String a s' => if decide (a = c) then true else contains c s'
  end.

(** [s.split(sep)] for a one-character separator: never an empty list. *)
Fixpoint split (sep : ascii) (s : string) : list string :=
  match s with
  | EmptyString => [EmptyString]
  | String c s' =>
      if decide (c = sep) then EmptyString :: split sep s'
      else match split sep s' with
           | seg :: segs => String c seg :: segs
           | [] => [String c EmptyString]
           end
  end.

(** [f"{n}"] for a non-negative integer. *)
Definition str_int (n : nat) : string := pretty n.

(** [f"{i:02d}"] for a non-negative integer: decimal, padded with a zero to
    two digits. *)
Definition fmt_02d (i : nat) : string :=
  if (i <? 10)%nat then "0" +:+ str_int i else str_int i.

(** ** Field search: [re.search(r'KEY\s*=\s*Q(.*?)Q', text)]

    [Q] stands for the double quote character, [KEY] for [compatible] or
    [description].  The pattern is matched the way the backtracking engine does.  A space is
    neither [=] nor a quote, so giving back characters of a greedy [\s*] never
    helps; the lazy group [(.*?)] grows one character at a time, never over a
    newline, until a quote follows. *)

(** A literal at the head of [s]; the rest of [s] after it. *)
Fixpoint skip_literal (lit s : string) {struct lit} : option string :=
  match lit, s with
  | EmptyString, _ => Some s
  | String _ _, EmptyString => None
  | String a lit', String b s' =>
      if decide (a = b) then skip_literal lit' s' else None
  end.

(** One given character at the head of [s]. *)
Definition expect (c : ascii) (s : string) : option string :=
  match s with
  | String a s' => if decide (a = c) then Some s' else None
  | EmptyString => None
  end.

(** [(.*?)Q]: the group, when a quote comes before any newline. *)
Fixpoint lazy_group (s : string) : option string :=
  match s with
  | EmptyString => None
  | String c s' =>
      if decide (c = dquote) then Some EmptyString
      else if decide (c = newline) then None
      else String c <$> lazy_group s'
  end.

(** The whole pattern anchored at the head of [s]; group 1 on success. *)
Definition match_field (key s : string) : option string :=
  s1 ← skip_literal key s;
  s2 ← expect "="%char (lstrip s1);
  s3 ← expect dquote (lstrip s2);
  lazy_group s3.

(** [re.search]: the match at the leftmost position that has one. *)
Fixpoint re_search_field (key s : string) : option string :=
  match match_field key s with
  | Some v => Some v
  | None =>
      match s with
      | EmptyString => None
      | String _ s' => re_search_field key s'
      end
  end.

(** ** Metadata extractor: lines 26-59 of [get_readable_name] *)

(** Lines 31-38.  [None] stands for the [IndexError] that
    [raw_comp.split(",")[1]] would raise on a one-element list. *)
Definition arg1_of (dts_content : string) : option string :=
  match re_search_field "compatible" dts_content with
  | Some raw_comp =>
      if contains comma raw_comp
      then strip <$> (split comma raw_comp !! 1%nat)
      else Some (strip raw_comp)
  | None => Some "unknown"
  end.

(** Lines 42-55. *)
Definition arg23_of (dts_content : string) : string * string :=
  match re_search_field "description" dts_content with
  | Some raw_desc =>
      let parts := split comma raw_desc in
      let arg2 :=
        if (1 <=? length parts)%nat
        then lower (strip (nth 0 parts EmptyString)) else "unk" in
      let arg3 :=
        if (2 <=? length parts)%nat
        then lower (strip (nth 1 parts EmptyString)) else "unk" in
      (arg2, arg3)
  | None => ("unk", "unk")
  end.

(** Line 58: [f"{arg1}-{arg2}-{arg3}.dtb"] *)
Definition canonical_name (arg1 arg2 arg3 : string) : string :=
  arg1 +:+ "-" +:+ arg2 +:+ "-" +:+ arg3 +:+ ".dtb".

(** Lines 26-59: the name built from the decompiled text. *)
Definition name_of_dts (dts_content : string) : option string :=
  arg1 ← arg1_of dts_content;
  let '(arg2, arg3) := arg23_of dts_content in
  Some (canonical_name arg1 arg2 arg3).

(** ** [os.path] on POSIX *)

(** The scan behind [p.rfind(c)]: [i] is the index of the head of [s],
    [last] the last index seen so far. *)
Fixpoint rfind_from (c : ascii) (s : string) (i last : Z) : Z :=
  match s with
  | EmptyString => last
  | String a s' => rfind_from c s' (i + 1) (if decide (a = c) then i else last)
  end.

(** [p.rfind(c)] for a one-character [c]: the highest index, or [-1]. *)
Definition rfind (c : ascii) (p : string) : Z := rfind_from c p 0 (-1).

(** [p[:n]] and [p[n:]] for [0 <= n]. *)
Fixpoint str_take (n : nat) (p : string) : string :=
  match n, p with
  | S n', String c p' => String c (str_take n' p')
  | _, _ => EmptyString
  end.

Fixpoint str_drop (n : nat) (p : string) : string :=
  match n, p with
  | S n', String _ p' => str_drop n' p'
  | _, _ => p
  end.

(** The [while filenameIndex < dotIndex] loop of [genericpath._splitext],
    run for the [n] indices from [filenameIndex] up to [dotIndex]: [true]
    when it returns from inside (a character that is not a dot was met),
    [false] when it falls through. *)
Fixpoint leading_dots_loop (p : string) (filenameIndex n : nat) : bool :=
  match n with
  | O => false
  | S n' =>
      match String.get filenameIndex p with
      | Some c =>
          if decide (c = dot) then leading_dots_loop p (S filenameIndex) n'
          else true
      | None => true
      end
  end.

(** [os.path.splitext(p)]: split at the last dot of the last path
    component, unless that component has only dots before it. *)
Definition splitext (p : string) : string * string :=
  let sepIndex := rfind slash p in
  let dotIndex := rfind dot p in
  if (sepIndex <? dotIndex)
     && leading_dots_loop p (Z.to_nat (sepIndex + 1))
          (Z.to_nat (dotIndex - (sepIndex + 1)))
  then (str_take (Z.to_nat dotIndex) p, str_drop (Z.to_nat dotIndex) p)
  else (p, EmptyString).

(** [s.startswith(c)] and [s.endswith(c)] for a one-character [c]. *)
Definition str_startswith (s : string) (c : ascii) : bool :=
  match s with
  | String a _ => bool_decide (a = c)
  | EmptyString => false
  end.

Fixpoint str_endswith (s : string) (c : ascii) : bool :=
  match s with
  | EmptyString => false
  | String a EmptyString => bool_decide (a = c)
  | String _ s' => str_endswith s' c
  end.

(** [os.path.join(a, b)] *)
Definition path_join (a b : string) : string :=
  if str_startswith b slash then b
  else if bool_decide (a = EmptyString) || str_endswith a slash then a +:+ b
  else a +:+ "/" +:+ b.

(** ** Name generator: lines 129-147 of [main] *)

(** Line 120: [f"temp_{i:02d}.dtb"] *)
Definition temp_filename (i : nat) : string := "temp_" +:+ fmt_02d i +:+ ".dtb".

(** Line 144: [f"unknown_{i:02d}.dtb"] *)
Definition fallback_name (i : nat) : string :=
  "unknown_" +:+ fmt_02d i +:+ ".dtb".

(** Lines 131-137: the registry after the lookup, and the final name. *)
Definition resolve_name (used_names : gmap string nat) (new_name : string)
    : gmap string nat * string :=
  match used_names !! new_name with
  | Some count =>
      let count' := S count in
      let '(base, ext) := splitext new_name in
      (<[new_name := count']> used_names,
       base +:+ "_" +:+ str_int count' +:+ ext)
  | None => (<[new_name := O]> used_names, new_name)
  end.

(** [if new_name:] holds for a string that is not empty; [None] and the
    empty string take the [else] branch. *)
Definition truthy (new_name : option string) : option string :=
  match new_name with
  | Some (String _ _ as n) => Some n
  | _ => None
  end.

(** Lines 129-147 without the effects: the registry and the name the region
    of index [i] ends up with, from what [get_readable_name] returned. *)
Definition final_name_of (used_names : gmap string nat) (i : nat)
    (new_name : option string) : gmap string nat * string :=
  match truthy new_name with
  | Some n => resolve_name used_names n
  | None => (used_names, fallback_name i)
  end.

(** The names of a whole run: [names_from used i news] names the regions of
    indices [i], [i+1], ... whose decode results are [news]. *)
Fixpoint names_from (used_names : gmap string nat) (i : nat)
    (news : list (option string)) : list string :=
  match news with
  | [] => []
  | new_name :: news' =>
      let '(used_names', final_name) := final_name_of used_names i new_name in
      final_name :: names_from used_names' (S i) news'
  end.

(** The registry after the same pass. *)
Fixpoint registry_after (used_names : gmap string nat) (i : nat)
    (news : list (option string)) : gmap string nat :=
  match news with
  | [] => used_names
  | new_name :: news' =>
      registry_after (final_name_of used_names i new_name).1 (S i) news'
  end.

(** ** Effects *)

(** What the run meets outside itself.  Each field answers one kind of call;
    a [false] or [None] answer is the call raising [OSError]. *)
Record World := {
  path_exists : string → bool;
  (** [os.path.exists(path)] *)
  read_file : string → option (list byte);
  (** [open(path, "rb")] and [fp.read()] *)
  makedirs_ok : string → bool;
  (** [os.makedirs(path, exist_ok=True)] *)
  write_ok : string → bool;
  (** [open(path, "wb")] and [fp.write(content)] in [dump_file] *)
  rename_ok : string → string → bool;
  (** [os.rename(src, dst)] *)
  run_dtc : string → list byte → option (Z * string);
  (** [subprocess.run] of [dtc] on a file with the given contents:
      [Some (returncode, stdout)], or [None] when the call raises (the
      program cannot be launched, its output cannot be decoded). *)
}.

(** [args] after [parser.parse_args()]. *)
Record Args := { input : string; out_dir : string }.

(** The console lines, one constructor per [print] of the source. *)
Inductive message :=
  | MsgInputNotFound (path : string)
  | MsgNoDTBs
  | MsgFound (n : nat)
  | MsgParseError (dtb_path : string)
  | MsgExtracted (i : nat) (final_name : string)
  | MsgParsingFailed (i : nat) (fallback_name : string)
  | MsgDone (dir : string).

(** The calls the run makes, in order.  A call is recorded when it is made,
    whether it succeeds or raises. *)
Inductive event :=
  | Print (m : message)
  | ReadFile (path : string)
  | MakeDirs (path : string)
  | DumpFile (path : string) (content : list byte)
  | RunDtc (path : string)
  | Rename (src dst : string).

(** How a computation ends: with a value, by [sys.exit(status)], by an
    exception nothing catches, or never (the scanner out of fuel). *)
Inductive outcome (A : Type) :=
  | Ret (a : A)
  | Exit (status : Z)
  | Raise
  | Diverge.
Arguments Ret {A} a.
Arguments Exit {A} status.
Arguments Raise {A}.
Arguments Diverge {A}.

(** A computation: the calls it made and how it ended. *)
Definition io (A : Type) : Type := list event * outcome A.

#[global] Instance io_ret : MRet io := λ A a, ([], Ret a).

#[global] Instance io_bind : MBind io := λ A B f m,
  match m.2 with
  | Ret a => (m.1 ++ (f a).1, (f a).2)
  | Exit status => (m.1, Exit status)
  | Raise => (m.1, Raise)
  | Diverge => (m.1, Diverge)
  end.

Definition emit (e : event) : io unit := ([e], Ret ()).

(** [print(...)] on a console that writes every line; [print_on] below is
    the call on any console. *)
Definition print (m : message) : io unit := emit (Print m).

Definition sys_exit {A} (status : Z) : io A := ([], Exit status).

(** A call that raises when the world says so. *)
Definition call (e : event) (ok : bool) : io unit :=
  ([e], if ok then Ret () else Raise).

(** The exit status the shell sees: an uncaught exception ends the
    interpreter with status 1. *)
Definition exit_status {A} (o : outcome A) : option Z :=
  match o with
  | Ret _ => Some 0
  | Exit status => Some status
  | Raise => Some 1
  | Diverge => None
  end.

(** [for i in idx: s = body(i, s)] *)
Fixpoint for_each {S : Type} (body : nat → S → io S) (idx : list nat) (s : S)
    : io S :=
  match idx with
  | [] => mret s
  | i :: idx' => s' ← body i s; for_each body idx' s'
  end.

(** ** [dump_file] and [get_readable_name] *)

(** Lines 65-67. *)
Definition dump_file (w : World) (filename : string) (content : list byte)
    : io unit :=
  call (DumpFile filename content) (write_ok w filename).

(** Lines 12-63.  [content] is what the file at [dtb_path] holds.  Every
    exception inside the [try] is caught, printed and turned into [None];
    the console writes the line of the handler ([get_readable_name_on] below
    is the function on a console that may refuse it). *)
Definition get_readable_name (w : World) (dtb_path : string)
    (content : list byte) : io (option string) :=
  emit (RunDtc dtb_path);;
  match run_dtc w dtb_path content with
  | None => print (MsgParseError dtb_path);; mret None
  | Some (returncode, stdout) =>
      if bool_decide (returncode ≠ 0) then mret None
      else match name_of_dts stdout with
           | Some new_name => mret (Some new_name)
           | None => print (MsgParseError dtb_path);; mret None
           end
  end.

(** ** [main] *)

(** Lines 113-147: one iteration of the [for] loop, with [used_names] as the
    loop-carried state. *)
Definition region_body (w : World) (args : Args) (content : list byte)
    (positions : list Z) (i : nat) (used_names : gmap string nat)
    : io (gmap string nat) :=
  let chunk := chunk_at content positions i in
  let temp_path := path_join (out_dir args) (temp_filename i) in
  dump_file w temp_path chunk;;
  new_name ← get_readable_name w temp_path chunk;
  match truthy new_name with
  | Some new_name =>
      let '(used_names', final_name) := resolve_name used_names new_name in
      let final_path := path_join (out_dir args) final_name in
      call (Rename temp_path final_path) (rename_ok w temp_path final_path);;
      print (MsgExtracted i final_name);;
      mret used_names'
  | None =>
      let fallback_name := fallback_name i in
      let final_path := path_join (out_dir args) fallback_name in
      call (Rename temp_path final_path) (rename_ok w temp_path final_path);;
      print (MsgParsingFailed i fallback_name);;
      mret used_names
  end.

(** Lines 78-149. *)
Definition main (w : World) (args : Args) : io unit :=
  if negb (path_exists w (input args)) then
    print (MsgInputNotFound (input args));;
    sys_exit 1
  else
    emit (ReadFile (input args));;
    match read_file w (input args) with
    | None => ([], Raise)
    | Some content =>
        match scan content with
        | None => ([], Diverge)
        | Some [] => print MsgNoDTBs;; sys_exit 0
        | Some positions =>
            print (MsgFound (length positions));;
            call (MakeDirs (out_dir args)) (makedirs_ok w (out_dir args));;
            for_each (region_body w args content positions)
              (seq 0 (length positions)) ∅;;
            print (MsgDone (out_dir args))
        end
    end.

(** ** The console

    [print] writes to standard output, and raises when the stream refuses
    the line: a [UnicodeEncodeError] when the console cannot encode it (the
    handler on line 62 prints a line in Cyrillic), an [OSError] when the
    stream is closed.  A console answers, for each line, whether it is
    written.  [get_readable_name], [region_body] and [main] above are the
    run on a console that writes every line; the definitions below are the
    run on any console. *)

(** [print(...)] on a console: the call is made, and raises when the
    console refuses the line. *)
Definition print_on (console : message → bool) (m : message) : io unit :=
  call (Print m) (console m).

(** Lines 12-63.  Every exception inside the [try] is caught; the [print]
    of the handler is inside no [try], so when it raises the exception
    leaves [get_readable_name]. *)
Definition get_readable_name_on (console : message → bool) (w : World)
    (dtb_path : string) (content : list byte) : io (option string) :=
  emit (RunDtc dtb_path);;
  match run_dtc w dtb_path content with
  | None => print_on console (MsgParseError dtb_path);; mret None
  | Some (returncode, stdout) =>
      if bool_decide (returncode ≠ 0) then mret None
      else match name_of_dts stdout with
           | Some new_name => mret (Some new_name)
           | None => print_on console (MsgParseError dtb_path);; mret None
           end
  end.

(** Lines 113-147. *)
Definition region_body_on (console : message → bool) (w : World)
    (args : Args) (content : list byte) (positions : list Z) (i : nat)
    (used_names : gmap string nat) : io (gmap string nat) :=
  let chunk := chunk_at content positions i in
  let temp_path := path_join (out_dir args) (temp_filename i) in
  dump_file w temp_path chunk;;
  new_name ← get_readable_name_on console w temp_path chunk;
  match truthy new_name with
  | Some new_name =>
      let '(used_names', final_name) := resolve_name used_names new_name in
      let final_path := path_join (out_dir args) final_name in
      call (Rename temp_path final_path) (rename_ok w temp_path final_path);;
      print_on console (MsgExtracted i final_name);;
      mret used_names'
  | None =>
      let fallback_name := fallback_name i in
      let final_path := path_join (out_dir args) fallback_name in
      call (Rename temp_path final_path) (rename_ok w temp_path final_path);;
      print_on console (MsgParsingFailed i fallback_name);;
      mret used_names
  end.

(** Lines 78-149. *)
Definition main_on (console : message → bool) (w : World) (args : Args)
    : io unit :=
  if negb (path_exists w (input args)) then
    print_on console (MsgInputNotFound (input args));;
    sys_exit 1
  else
    emit (ReadFile (input args));;
    match read_file w (input args) with
    | None => ([], Raise)
    | Some content =>
        match scan content with
        | None => ([], Diverge)
        | Some [] => print_on console MsgNoDTBs;; sys_exit 0
        | Some positions =>
            print_on console (MsgFound (length positions));;
            call (MakeDirs (out_dir args)) (makedirs_ok w (out_dir args));;
            for_each (region_body_on console w args content positions)
              (seq 0 (length positions)) ∅;;
            print_on console (MsgDone (out_dir args))
        end
    end.

(** ** Vocabulary of the statements *)

(** The marker starts at index [p] of [content]. *)
Definition occurs_at (content : list byte) (p : nat) : bool :=
  startswith (drop p content) DTB_HEADER.

(** Every index of [content] from [k] on where the marker starts,
    ascending. *)
Definition offsets_from (content : list byte) (k : nat) : list Z :=
  Z.of_nat <$>
    filter (λ p, occurs_at content p = true) (seq k (length content - k)).

(** Every index of [content] where the marker starts, ascending. *)
Definition marker_offsets (content : list byte) : list Z :=
  offsets_from content 0.

(** [s] is made of dots only. *)
Fixpoint all_dots (s : string) : bool :=
  match s with
  | EmptyString => true
  | String c s' => bool_decide (c = dot) && all_dots s'
  end.

(** [s] ends in a slash followed by nothing but dots (none, one or more):
    its last path component has no character other than dots. *)
Fixpoint ends_in_slash_dots (s : string) : bool :=
  match s with
  | EmptyString => false
  | String c s' =>
      bool_decide (c = slash) && all_dots s' || ends_in_slash_dots s'
  end.

(** Line 58 without the extension: [f"{arg1}-{arg2}-{arg3}"] *)
Definition stem (arg1 arg2 arg3 : string) : string :=
  arg1 +:+ "-" +:+ arg2 +:+ "-" +:+ arg3.

(** How many times the registry has seen [name]: a count of [c] stands for
    [c + 1] uses, no entry for none. *)
Definition uses (used_names : gmap string nat) (name : string) : nat :=
  from_option S O (used_names !! name).

(** How many of the decode results [news] are the name [name]. *)
Definition occurrences (name : string) (news : list (option string)) : nat :=
  length (filter (λ new_name, new_name = Some name) news).

(** The value a computation returned, if it did return. *)
Definition returned {A} (m : io A) : option A :=
  match m.2 with
  | Ret a => Some a
  | _ => None
  end.

(** The path of the temporary file of the region of index [i]. *)
Definition temp_path (args : Args) (i : nat) : string :=
  path_join (out_dir args) (temp_filename i).

(** What [get_readable_name] returns for the region of index [i]. *)
Definition decode_at (w : World) (args : Args) (content : list byte)
    (positions : list Z) (i : nat) : option string :=
  mjoin (returned (get_readable_name w (temp_path args i)
                     (chunk_at content positions i))).

(** The files handed to [dump_file], with what was to be written. *)
Definition dumped (t : list event) : list (string * list byte) :=
  omap (λ e, match e with
             | DumpFile path content => Some (path, content)
             | _ => None
             end) t.

(** The calls of [os.rename]. *)
Definition renamed (t : list event) : list (string * string) :=
  omap (λ e, match e with
             | Rename src dst => Some (src, dst)
             | _ => None
             end) t.

(** The event is a call that creates or changes something on disk. *)
Definition touches_disk (e : event) : bool :=
  match e with
  | MakeDirs _ | DumpFile _ _ | Rename _ _ => true
  | _ => false
  end.

(** Every call that writes a file, moves one or makes a directory
    succeeds. *)
Definition disk_ok (w : World) : Prop :=
  (∀ path, makedirs_ok w path = true) ∧
  (∀ path, write_ok w path = true) ∧
  (∀ src dst, rename_ok w src dst = true).

(** The part of [s] before its first comma; all of [s] when it has none. *)
Fixpoint before_comma (s : string) : string :=
  match s with
  | EmptyString => EmptyString
  | String c s' =>
      if decide (c = comma) then EmptyString else String c (before_comma s')
  end.

(** The part of [s] after its first comma; empty when it has none. *)
Fixpoint after_first_comma (s : string) : string :=
  match s with
  | EmptyString => EmptyString
  | String c s' => if decide (c = comma) then s' else after_first_comma s'
  end.

(** [s] is made of white space only. *)
Fixpoint all_space (s : string) : bool :=
  match s with
  | EmptyString => true
  | String c s' => isspace c && all_space s'
  end.

(** What the pattern [KEY\s*=\s*Q(.*?)Q] means at the head of [s], with [v]
    as its group: the key, white space, an equals sign, white space, a
    quote, then [v], which holds neither a newline (the dot does not match
    one) nor a quote (the group is lazy: it stops at the first quote), then
    the closing quote. *)
Definition field_at (key s v : string) : Prop :=
  ∃ ws1 ws2 rest,
    s = key +:+ ws1 +:+ String "="%char (ws2 +:+ String dquote
          (v +:+ String dquote rest)) ∧
    all_space ws1 = true ∧ all_space ws2 = true ∧
    contains newline v = false ∧ contains dquote v = false.

(** ** Sample inputs *)

(** An image with one byte of padding, then three blobs of lengths 6, 4
    and 5. *)
Definition sample_image : list byte :=
  [x00; xd0; x0d; xfe; xed; x01; x02;
   xd0; x0d; xfe; xed; xd0; x0d; xfe; xed; x07].

(** [s] between double quotes. *)
Definition quoted (s : string) : string :=
  String dquote (s +:+ String dquote EmptyString).

(** What [dtc] prints for a blob with both fields. *)
Definition sample_dts : string :=
  "compatible = " +:+ quoted "google,zuma" +:+ "; description = "
  +:+ quoted "B0,IPOP" +:+ ";".

Definition sample_args : Args := {| input := "boot.img"; out_dir := "out" |}.

(** A world with [sample_image] as the input and a working disk, where
    [dtc] decompiles the first blob, cannot be launched for the second
    (the one of four bytes) and exits with status 1 for the third (the one of
    five bytes). *)
Definition sample_world : World := {|
  path_exists := λ _, true;
  read_file := λ _, Some sample_image;
  makedirs_ok := λ _, true;
  write_ok := λ _, true;
  rename_ok := λ _ _, true;
  run_dtc := λ _ content,
    if decide (length content = 4%nat) then None
    else if decide (length content = 5%nat) then Some (1, EmptyString)
    else Some (0, sample_dts)
|}.

(** The same world without the input file. *)
Definition world_missing_input : World := {|
  path_exists := λ _, false;
  read_file := λ _, None;
  makedirs_ok := makedirs_ok sample_world;
  write_ok := write_ok sample_world;
  rename_ok := rename_ok sample_world;
  run_dtc := run_dtc sample_world
|}.

(** The same world with an input that holds no marker. *)
Definition world_no_marker : World := {|
  path_exists := λ _, true;
  read_file := λ _, Some [x00; xd0; x0d; xfe];
  makedirs_ok := makedirs_ok sample_world;
  write_ok := write_ok sample_world;
  rename_ok := rename_ok sample_world;
  run_dtc := run_dtc sample_world
|}.

(** The same world where the temporary file of the first region cannot be
    written. *)
Definition world_unwritable : World := {|
  path_exists := path_exists sample_world;
  read_file := read_file sample_world;
  makedirs_ok := makedirs_ok sample_world;
  write_ok := λ path, negb (String.eqb path "out/temp_00.dtb");
  rename_ok := rename_ok sample_world;
  run_dtc := run_dtc sample_world
|}.

(** What [dtc] prints for a blob whose description has a second part that
    ends in a slash. *)
Definition slash_dts : string :=
  "compatible = " +:+ quoted "google,zuma" +:+ "; description = "
  +:+ quoted "B0,x/" +:+ ";".

(** What [dtc] prints for a blob whose compatible string has two commas. *)
Definition abc_dts : string := "compatible = " +:+ quoted "a,b,c" +:+ ";".

(** What [dtc] prints for a blob whose description is the empty string. *)
Definition empty_description_dts : string :=
  "description = " +:+ quoted EmptyString +:+ ";".

(** What [dtc] prints for a blob with a one-part description and no
    compatible string. *)
Definition foo_dts : string := "description = " +:+ quoted "Foo" +:+ ";".

(** [c] is a decimal digit. *)
Definition is_digit (c : ascii) : bool :=
  let n := nat_of_ascii c in ((48 <=? n) && (n <=? 57))%nat.

(** [s.endswith(suffix)] *)
Fixpoint endswith (s suffix : string) : bool :=
  bool_decide (s = suffix)
  || match s with
     | EmptyString => false
     | String _ s' => endswith s' suffix
     end.

Definition hyphen : ascii := "-"%char.

(** The sample world where the second region cannot be renamed to its
    final name. *)
Definition world_unrenamable : World := {|
  path_exists := path_exists sample_world;
  read_file := read_file sample_world;
  makedirs_ok := makedirs_ok sample_world;
  write_ok := write_ok sample_world;
  rename_ok := λ _ dst, negb (String.eqb dst "out/unknown_01.dtb");
  run_dtc := run_dtc sample_world
|}.

(** The sample world where the input exists and cannot be read. *)
Definition world_unreadable : World := {|
  path_exists := path_exists sample_world;
  read_file := λ _, None;
  makedirs_ok := makedirs_ok sample_world;
  write_ok := write_ok sample_world;
  rename_ok := rename_ok sample_world;
  run_dtc := run_dtc sample_world
|}.

(** The sample world where the output directory cannot be made. *)
Definition world_no_out_dir : World := {|
  path_exists := path_exists sample_world;
  read_file := read_file sample_world;
  makedirs_ok := λ _, false;
  write_ok := write_ok sample_world;
  rename_ok := rename_ok sample_world;
  run_dtc := run_dtc sample_world
|}.


(** A console that writes every line. *)
Definition console_writes_all (m : message) : bool := true.

(** The sample world where the temporary file of the last region cannot be
    written. *)
Definition world_unwritable_last : World := {|
  path_exists := path_exists sample_world;
  read_file := read_file sample_world;
  makedirs_ok := makedirs_ok sample_world;
  write_ok := λ path, negb (String.eqb path "out/temp_02.dtb");
  rename_ok := rename_ok sample_world;
  run_dtc := run_dtc sample_world
|}.

(** * make_prebuild: the steps around the extraction

    A shallow embedding of the helpers of [src/make_prebuild.py], of its
    first step, of its DTB step and of the two searches of its last step.
    Console lines, directory creation, copies, external commands and
    [touch] are recorded as events; [os.path.exists] and [glob.glob] are
    questions to the world and leave no event. *)

(** [sub in s] for strings. *)
Fixpoint substring_in (sub s : string) : bool :=
  match skip_literal sub s with
  | Some _ => true
  | None =>
      match s with
      | EmptyString => false
      | String _ s' => substring_in sub s'
      end
  end.

(** [os.path.basename(p)]: [i = p.rfind('/') + 1; return p[i:]] *)
Definition basename (p : string) : string :=
  str_drop (Z.to_nat (rfind slash p + 1)) p.

Module Prebuild.

(** A command is a string or a list of arguments. *)
Inductive command :=
  | CmdString (s : string)
  | CmdArgv (argv : list string).

(** What [subprocess.run] does: it returns a completed process, or raises
    something other than [CalledProcessError] (the program cannot be
    launched). *)
Inductive completed :=
  | ProcRaises
  | ProcExits (returncode : Z) (stdout stderr : string).

Record World := {
  debug_mode : bool;
  (** the global [DEBUG_MODE] *)
  script_dir : string;
  (** the global [SCRIPT_DIR] *)
  executable : string;
  (** [sys.executable] *)
  path_exists : string → bool;
  (** [os.path.exists(path)] *)
  makedirs_ok : string → bool;
  (** [os.makedirs(path)] *)
  copy_ok : string → string → bool;
  (** [shutil.copy2(src, dst)] *)
  touch_ok : string → bool;
  (** [Path(path).touch()] *)
  glob : string → bool → list string;
  (** [glob.glob(pathname, recursive=...)] *)
  run_process : command → option string → bool → completed;
  (** [subprocess.run(command, cwd=..., shell=...)] *)
}.

(** [EXTRACT_DTB_SCRIPT = os.path.join(SCRIPT_DIR, "extractdtb.py")] *)
Definition EXTRACT_DTB_SCRIPT (w : World) : string :=
  path_join (script_dir w) "extractdtb.py".

(** The console lines, one constructor per [print] or [log] of the source
    that the modelled functions reach. *)
Inductive message :=
  | MsgCmd (c : command) (cwd : option string)
  | MsgCmdError (c : command)
  | MsgStdout (text : string)
  | MsgStderr (text : string)
  | MsgCopied (src dst : string)
  | MsgCopyError (src dst : string)
  | MsgMounting (image_name : string)
  | MsgUnmounting (mount_point : string)
  | MsgStep1
  | MsgModulesCopied (count : nat)
  | MsgBlocklistCopied
  | MsgBlocklistCreated
  | MsgLoadCopied
  | MsgLoadMissing
  | MsgMountFailed
  | MsgStep31
  | MsgDtbMissing
  | MsgScriptMissing (script : string)
  | MsgRunningExtract (dtb_src : string)
  | MsgDtbCount (n : nat).

(** The calls made, in order, recorded when they are made. *)
Inductive event :=
  | Print (m : message)
  | MakeDirs (path : string)
  | Copy (src dst : string)
  | Touch (path : string)
  | Run (c : command) (cwd : option string) (shell : bool).

Definition io (A : Type) : Type := list event * outcome A.

#[global] Instance io_ret : MRet io := λ A a, ([], Ret a).

#[global] Instance io_bind : MBind io := λ A B f m,
  match m.2 with
  | Ret a => (m.1 ++ (f a).1, (f a).2)
  | Exit status => (m.1, Exit status)
  | Raise => (m.1, Raise)
  | Diverge => (m.1, Diverge)
  end.

Definition emit (e : event) : io unit := ([e], Ret ()).

(** A call that raises when the world says so. *)
Definition call (e : event) (ok : bool) : io unit :=
  ([e], if ok then Ret () else Raise).

(** [try: body finally: handler]: the handler runs however the body ends,
    and the way the body ended stands unless the handler itself does not
    return. *)
Definition try_finally {A} (body : io A) (handler : io unit) : io A :=
  match body.2 with
  | Diverge => (body.1, Diverge)
  | o =>
      (body.1 ++ handler.1,
       match handler.2 with
       | Ret _ => o
       | Exit status => Exit status
       | Raise => Raise
       | Diverge => Diverge
       end)
  end.

(** [for f in files: s = body(f, s)] *)
Fixpoint for_files {S : Type} (body : string → S → io S) (files : list string)
    (s : S) : io S :=
  match files with
  | [] => mret s
  | f :: files' => s' ← body f s; for_files body files' s'
  end.

(** Lines 31-32. *)
Definition log (m : message) : io unit := emit (Print m).

(** *** [shlex.split]

    [shlex.split(s)] reads [s] with a lexer in POSIX mode, with
    [whitespace_split] set and no comment characters: white space is a
    blank, a tab, a carriage return or a line feed; the quotes are the
    single and the double quote; the backslash escapes, and inside quotes
    only inside double ones. *)

Definition squote : ascii := "039"%char.
Definition backslash : ascii := "092"%char.

(** [nextchar in self.whitespace] *)
Definition lex_whitespace (c : ascii) : bool :=
  bool_decide (c = " "%char) || bool_decide (c = "009"%char)
  || bool_decide (c = "013"%char) || bool_decide (c = "010"%char).

(** [nextchar in self.quotes] *)
Definition lex_quote (c : ascii) : bool :=
  bool_decide (c = squote) || bool_decide (c = dquote).

(** [self.state] of the lexer: [' '] between words, ['a'] in a word, a quote
    character inside quotes, the backslash after one; in that last state
    [escapedstate] is ['a'] ([None] here) or the quote the backslash stands
    inside. *)
Inductive lex_state :=
  | Blank
  | Word
  | Quoted (q : ascii)
  | Escaped (escapedstate : option ascii).

(** [if text:] for a string. *)
Definition nonempty (text : string) : bool :=
  match text with
  | EmptyString => false
  | String _ _ => true
  end.

(** The loop of [read_token], run over the whole string: the tokens from
    here on, with the lexer in [state] holding [token], and [quoted] set
    when the token met a quote.  [None] is the [ValueError] at the end of a
    string that stops inside quotes or after a backslash. *)
Fixpoint read_tokens (s : string) (state : lex_state) (token : string)
    (quoted : bool) : option (list string) :=
  match s with
  | EmptyString =>
      match state with
      | Blank => Some []
      | Word => Some (if nonempty token || quoted then [token] else [])
      | Quoted _ | Escaped _ => None
      end
  | String nextchar s' =>
      match state with
      | Blank =>
          if lex_whitespace nextchar then
            if nonempty token || quoted then
              cons token <$> read_tokens s' Blank EmptyString false
            else read_tokens s' Blank token quoted
          else if bool_decide (nextchar = backslash) then
            read_tokens s' (Escaped None) token quoted
          else if lex_quote nextchar then
            read_tokens s' (Quoted nextchar) token quoted
          else read_tokens s' Word (String nextchar EmptyString) quoted
      | Quoted q =>
          if bool_decide (nextchar = q) then read_tokens s' Word token true
          else if bool_decide (nextchar = backslash)
                  && bool_decide (q = dquote) then
            read_tokens s' (Escaped (Some q)) token true
          else
            read_tokens s' (Quoted q) (token +:+ String nextchar EmptyString)
              true
      | Escaped escapedstate =>
          let token :=
            match escapedstate with
            | Some q =>
                if bool_decide (nextchar ≠ backslash)
                   && bool_decide (nextchar ≠ q)
                then token +:+ String backslash EmptyString
                else token
            | None => token
            end in
          read_tokens s'
            (match escapedstate with Some q => Quoted q | None => Word end)
            (token +:+ String nextchar EmptyString) quoted
      | Word =>
          if lex_whitespace nextchar then
            if nonempty token || quoted then
              cons token <$> read_tokens s' Blank EmptyString false
            else read_tokens s' Blank token quoted
          else if lex_quote nextchar then
            read_tokens s' (Quoted nextchar) token quoted
          else if bool_decide (nextchar = backslash) then
            read_tokens s' (Escaped None) token quoted
          else
            read_tokens s' Word (token +:+ String nextchar EmptyString) quoted
      end
  end.

(** [shlex.split(s)]; [None] when it raises [ValueError]. *)
Definition shlex_split (s : string) : option (list string) :=
  read_tokens s Blank EmptyString false.

(** Lines 44-46: the command handed to [subprocess.run]; a string is split
    into arguments unless the shell is to read it.  [None] when
    [shlex.split] raises. *)
Definition split_command (c : command) (shell : bool) : option command :=
  match c with
  | CmdString s => if negb shell then CmdArgv <$> shlex_split s else Some c
  | CmdArgv _ => Some c
  end.

(** Lines 34-66.  Only [CalledProcessError] is caught, and [subprocess.run]
    raises it only when [check] holds and the status is not zero; the
    [ValueError] of [shlex.split] leaves [run_cmd] before anything is
    launched.  The line of the handler shows [command] as it is by then,
    split. *)
Definition run_cmd (w : World) (c : command) (cwd : option string)
    (shell check : bool) : io bool :=
  (if debug_mode w then emit (Print (MsgCmd c cwd)) else mret ());;
  match split_command c shell with
  | None => ([], Raise)
  | Some command =>
      emit (Run command cwd shell);;
      match run_process w command cwd shell with
      | ProcRaises => ([], Raise)
      | ProcExits returncode stdout stderr =>
          if check && bool_decide (returncode ≠ 0) then
            log (MsgCmdError command);;
            (if negb (debug_mode w) then
               (if nonempty stdout then emit (Print (MsgStdout stdout))
                else mret ());;
               (if nonempty stderr then emit (Print (MsgStderr stderr))
                else mret ())
             else mret ());;
            mret false
          else mret true
      end
  end.

(** Lines 68-70. *)
Definition ensure_dir (w : World) (path : string) : io unit :=
  if negb (path_exists w path) then call (MakeDirs path) (makedirs_ok w path)
  else mret ().

(** Lines 72-82.  Both branches of the [isdir] test make the same call;
    every exception of the copy is caught and logged. *)
Definition copy_file (w : World) (src dst : string) : io unit :=
  emit (Copy src dst);;
  if copy_ok w src dst then
    if debug_mode w then emit (Print (MsgCopied src dst)) else mret ()
  else log (MsgCopyError src dst).

(** Lines 84-86. *)
Definition find_files (w : World) (directory pattern : string) : list string :=
  glob w (path_join (path_join directory "**") pattern) true.

(** Lines 88-93. *)
Definition mount_image (w : World) (image_path mount_point : string)
    : io bool :=
  log (MsgMounting (basename image_path));;
  run_cmd w
    (CmdString ("sudo mount -o loop,ro " +:+ image_path +:+ " "
                +:+ mount_point))
    None true true.

(** The command of [unmount_image]. *)
Definition umount_command (mount_point : string) : command :=
  CmdString ("sudo umount " +:+ mount_point).

(** Lines 95-100.  The completed process is ignored. *)
Definition unmount_image (w : World) (mount_point : string) : io unit :=
  log (MsgUnmounting mount_point);;
  emit (Run (umount_command mount_point) None true);;
  match run_process w (umount_command mount_point) None true with
  | ProcRaises => ([], Raise)
  | ProcExits _ _ _ => mret ()
  end.

(** Lines 114-118: the loop over the modules found, with [count] as its
    state. *)
Definition copy_modules (w : World) (ko_files : list string)
    (out_dir : string) : io nat :=
  for_files
    (λ f count,
       if negb (substring_in "16k-mode" f) then
         copy_file w f out_dir;; mret (S count)
       else mret count)
    ko_files O.

(** Lines 104-143. *)
Definition step_1_system_dlkm (w : World) (tmp_dir input_dir out_dir : string)
    : io unit :=
  log MsgStep1;;
  let img_path := path_join input_dir "system_dlkm.img" in
  let mnt_dir := path_join tmp_dir "mnt_system" in
  ensure_dir w mnt_dir;;
  mounted ← mount_image w img_path mnt_dir;
  if mounted : bool then
    try_finally
      (let ko_files := find_files w mnt_dir "*.ko" in
       count ← copy_modules w ko_files out_dir;
       log (MsgModulesCopied count);;
       let blocklists := find_files w mnt_dir "modules.blocklist" in
       let dest_blocklist :=
         path_join out_dir "system_dlkm.modules.blocklist" in
       match blocklists with
       | blocklist :: _ =>
           copy_file w blocklist dest_blocklist;; log MsgBlocklistCopied
       | [] =>
           call (Touch dest_blocklist) (touch_ok w dest_blocklist);;
           log MsgBlocklistCreated
       end;;
       let loads := find_files w mnt_dir "modules.load" in
       let dest_load := path_join out_dir "system_dlkm.modules.load" in
       match loads with
       | load :: _ => copy_file w load dest_load;; log MsgLoadCopied
       | [] => log MsgLoadMissing
       end)
      (unmount_image w mnt_dir)
  else log MsgMountFailed.

(** Lines 258-294. *)
Definition step_3_1_process_dtb (w : World) (vkb_work_dir out_dir : string)
    : io (list string) :=
  log MsgStep31;;
  let dtb_candidates := glob w (path_join vkb_work_dir "dtb") false in
  match dtb_candidates with
  | [] => log MsgDtbMissing;; mret []
  | dtb_src :: _ =>
      if negb (path_exists w (EXTRACT_DTB_SCRIPT w)) then
        log (MsgScriptMissing (EXTRACT_DTB_SCRIPT w));; mret []
      else
        log (MsgRunningExtract dtb_src);;
        let cmd :=
          CmdArgv [executable w; EXTRACT_DTB_SCRIPT w; "--input"; dtb_src;
                   "--out-dir"; out_dir] in
        run_cmd w cmd None false true;;
        let all_dtbs := glob w (path_join out_dir "*.dtb") false in
        let final_dtbs :=
          basename <$> filter (λ f, endswith f ".dtb" = true) all_dtbs in
        log (MsgDtbCount (length final_dtbs));;
        copy_file w dtb_src (path_join out_dir "dtb.img");;
        copy_file w dtb_src (path_join out_dir "dtb");;
        mret final_dtbs
  end.

(** Line 353. *)
Definition candidates : list string :=
  ["Image"; "kernel"; "zImage"; "Image.gz"; "Image.lz4"].

(** Lines 358-361: the loop over the files of one directory; it stops at
    the first file whose name is a candidate. *)
Fixpoint scan_files (root : string) (files : list string)
    (found_kernel : option string) : option string :=
  match files with
  | [] => found_kernel
  | f :: files' =>
      if bool_decide (f ∈ candidates) then Some (path_join root f)
      else scan_files root files' found_kernel
  end.

(** Lines 354-362: the loop over what [os.walk] yields; it stops after the
    first directory that left [found_kernel] set. *)
Fixpoint find_kernel (walk : list (string * list string * list string))
    (found_kernel : option string) : option string :=
  match walk with
  | [] => found_kernel
  | (root, dirs, files) :: walk' =>
      let found_kernel := scan_files root files found_kernel in
      match truthy found_kernel with
      | Some _ => found_kernel
      | None => find_kernel walk' found_kernel
      end
  end.

(** Lines 396-399: the loop over the two names; it stops at the first one
    that is among the files of the directory. *)
Fixpoint pick_dtb (root : string) (files names : list string)
    (found_dtb : option string) : option string :=
  match names with
  | [] => found_dtb
  | f :: names' =>
      if bool_decide (f ∈ files) then Some (path_join root f)
      else pick_dtb root files names' found_dtb
  end.

(** Lines 394-399: the loop over what [os.walk] yields; nothing stops it. *)
Fixpoint find_dtb (walk : list (string * list string * list string))
    (found_dtb : option string) : option string :=
  match walk with
  | [] => found_dtb
  | (root, dirs, files) :: walk' =>
      find_dtb walk' (pick_dtb root files ["dtb"; "dtb.img"] found_dtb)
  end.

End Prebuild.

(** The external commands among the events. *)
Definition runs (t : list Prebuild.event) : list Prebuild.event :=
  omap (λ e, match e with
             | Prebuild.Run _ _ _ => Some e
             | _ => None
             end) t.

(** The calls of [copy_file] among the events. *)
Definition copies (t : list Prebuild.event) : list (string * string) :=
  omap (λ e, match e with
             | Prebuild.Copy src dst => Some (src, dst)
             | _ => None
             end) t.

(** A world for the steps: the image mounts, three modules are found, one
    of them for 16k pages, the block list is missing and cannot be created;
    the unpacked boot image holds a [dtb]; the output directory holds two
    blobs after the extraction, which exits with status 1. *)
Definition prebuild_world : Prebuild.World := {|
  Prebuild.debug_mode := false;
  Prebuild.script_dir := "/opt/tools";
  Prebuild.executable := "/usr/bin/python3";
  Prebuild.path_exists := λ _, true;
  Prebuild.makedirs_ok := λ _, true;
  Prebuild.copy_ok := λ _ _, true;
  Prebuild.touch_ok := λ _, false;
  Prebuild.glob := λ pathname _,
    if String.eqb pathname "/tmp/t/mnt_system/**/*.ko" then
      ["/tmp/t/mnt_system/lib/a.ko"; "/tmp/t/mnt_system/16k-mode/a.ko";
       "/tmp/t/mnt_system/lib/b.ko"]
    else if String.eqb pathname "/tmp/t/vkb_extract/dtb" then
      ["/tmp/t/vkb_extract/dtb"]
    else if String.eqb pathname "/out/*.dtb" then
      ["/out/zuma-b0-ipop.dtb"; "/out/unknown_01.dtb"]
    else [];
  Prebuild.run_process := λ c _ _,
    match c with
    | Prebuild.CmdArgv _ => Prebuild.ProcExits 1 EmptyString EmptyString
    | Prebuild.CmdString _ => Prebuild.ProcExits 0 EmptyString EmptyString
    end
|}.

(** * Properties *)

(** ** Scanner *)

Lemma startswith_app (s sub : list byte) :
  startswith s sub = true ↔ ∃ rest, s = sub ++ rest.
Proof.
  revert s. induction sub as [|a sub IH]; intros s; simpl.
  - split; [intros _; by exists s|done].
  - destruct s as [|b s]; simpl.
    + split; [done|]. by intros [rest ?].
    + rewrite andb_true_iff, IH. split.
      * intros [Hab [rest ->]]. exists rest.
        destruct (Byte.eqb a b) eqn:E; [|done].
        apply Byte.byte_dec_bl in E. by subst.
      * intros [rest [= -> ->]]. split; [|by exists rest].
        by apply Byte.byte_dec_lb.
Qed.

Lemma startswith_header_length (s : list byte) :
  startswith s DTB_HEADER = true → (4 ≤ length s)%nat.
Proof.
  intros [rest ->]%startswith_app. rewrite length_app. simpl. lia.
Qed.

Lemma occurs_at_bound (content : list byte) (p : nat) :
  occurs_at content p = true → (p + 4 ≤ length content)%nat.
Proof.
  unfold occurs_at. intros H%startswith_header_length.
  rewrite length_drop in H. lia.
Qed.

Lemma find_from_shape (sub s : list byte) (i : Z) :
  (find_from sub s i = -1 ∧
     ∀ k, (k ≤ length s)%nat → startswith (drop k s) sub = false)
  ∨ (∃ k, find_from sub s i = i + Z.of_nat k ∧ (k ≤ length s)%nat ∧
       startswith (drop k s) sub = true ∧
       ∀ j, (j < k)%nat → startswith (drop j s) sub = false).
Proof.
  revert i. induction s as [|b s IH]; intros i; simpl.
  - destruct (startswith [] sub) eqn:E.
    + right. exists O. rewrite Z.add_0_r. split_and!; [done..|lia].
    + left. split; [done|]. intros k Hk. by rewrite drop_nil.
  - destruct (startswith (b :: s) sub) eqn:E.
    + right. exists O. rewrite Z.add_0_r. simpl. split_and!; [done|lia|done|lia].
    + destruct (IH (i + 1)) as [[Hm Hno]|(k & Hk & Hle & Hyes & Hno)].
      * left. split; [done|]. intros [|k] Hk; [done|].
        simpl. apply Hno. simpl in Hk. lia.
      * right. exists (S k). simpl. split_and!; [lia|lia|done|].
        intros [|j] Hj; [done|]. simpl. apply Hno. lia.
Qed.

Lemma find_header_shape (content : list byte) (k : nat) :
  (k ≤ length content)%nat →
  (find content DTB_HEADER (Z.of_nat k) = -1 ∧
     ∀ p, (k ≤ p)%nat → occurs_at content p = false)
  ∨ (∃ p, find content DTB_HEADER (Z.of_nat k) = Z.of_nat p ∧ (k ≤ p)%nat ∧
       occurs_at content p = true ∧
       ∀ j, (k ≤ j < p)%nat → occurs_at content j = false).
Proof.
  intros Hk. unfold find, occurs_at.
  destruct (Z.ltb_spec (Z.of_nat (length content)) (Z.of_nat k)); [lia|].
  rewrite Nat2Z.id.
  destruct (find_from_shape DTB_HEADER (drop k content) (Z.of_nat k))
    as [[Hm Hno]|(d & Hd & Hle & Hyes & Hno)].
  - left. split; [done|]. intros p Hp.
    destruct (decide (p ≤ length content)%nat) as [Hpl|Hpl].
    + specialize (Hno (p - k)%nat). rewrite drop_drop in Hno.
      replace (k + (p - k))%nat with p in Hno by lia.
      apply Hno. rewrite length_drop. lia.
    + rewrite drop_ge by lia. done.
  - right. exists (k + d)%nat. rewrite drop_drop in Hyes.
    split_and!; [lia|lia|done|].
    intros j Hj. specialize (Hno (j - k)%nat). rewrite drop_drop in Hno.
    replace (k + (j - k))%nat with j in Hno by lia. apply Hno. lia.
Qed.

Lemma filter_seq_none (P : nat → Prop) `{!∀ x, Decision (P x)} (k n : nat) :
  (∀ j, (k ≤ j < k + n)%nat → ¬ P j) → filter P (seq k n) = [].
Proof.
  revert k. induction n as [|n IH]; intros k Hno; [done|].
  simpl. rewrite filter_cons_False by (apply Hno; lia).
  apply IH. intros j Hj. apply Hno. lia.
Qed.

Lemma filter_seq_first (P : nat → Prop) `{!∀ x, Decision (P x)} (k n p : nat) :
  (k ≤ p < k + n)%nat → P p → (∀ j, (k ≤ j < p)%nat → ¬ P j) →
  filter P (seq k n) = p :: filter P (seq (S p) (k + n - S p)).
Proof.
  intros Hp HP Hno.
  replace n with ((p - k) + S (k + n - S p))%nat at 1 by lia.
  rewrite seq_app, filter_app, filter_seq_none by (intros j Hj; apply Hno; lia).
  replace (k + (p - k))%nat with p by lia. simpl.
  by rewrite filter_cons_True.
Qed.

Lemma offsets_from_unfold (content : list byte) (k : nat) :
  (k ≤ length content)%nat →
  (find content DTB_HEADER (Z.of_nat k) = -1 ∧ offsets_from content k = [])
  ∨ (∃ p, find content DTB_HEADER (Z.of_nat k) = Z.of_nat p ∧
       (k ≤ p)%nat ∧ (p + 4 ≤ length content)%nat ∧
       occurs_at content p = true ∧
       (∀ j, (k ≤ j < p)%nat → occurs_at content j = false) ∧
       offsets_from content k = Z.of_nat p :: offsets_from content (S p)).
Proof.
  intros Hk. unfold offsets_from.
  destruct (find_header_shape content k Hk)
    as [[Hm Hno]|(p & Hp & Hkp & Hyes & Hno)].
  - left. split; [done|]. rewrite filter_seq_none; [done|].
    intros j Hj. rewrite Hno by lia. done.
  - right. exists p. pose proof (occurs_at_bound _ _ Hyes) as Hb.
    split_and!; [done..|].
    rewrite (filter_seq_first _ k _ p); [|lia|done|].
    + by replace (k + (length content - k) - S p)%nat
        with (length content - S p)%nat by lia.
    + intros j Hj. rewrite Hno by lia. done.
Qed.

Lemma scan_loop_offsets (content : list byte) (fuel k : nat) (acc : list Z) :
  (k ≤ length content)%nat → (length content < fuel + k)%nat →
  scan_loop fuel content (find content DTB_HEADER (Z.of_nat k)) acc
  = Some (acc ++ offsets_from content k).
Proof.
  revert k acc. induction fuel as [|fuel IH]; intros k acc Hk Hfuel; [lia|].
  destruct (offsets_from_unfold content k Hk)
    as [[Hm ->]|(p & Hp & Hkp & Hb & _ & _ & ->)].
  - rewrite Hm. simpl. by rewrite app_nil_r.
  - rewrite Hp. simpl.
    destruct (Z.eqb_spec (Z.of_nat p) (-1)) as [|_]; [lia|].
    replace (Z.of_nat p + 1) with (Z.of_nat (S p)) by lia.
    rewrite IH by lia. by rewrite <-app_assoc.
Qed.

Lemma scan_marker_offsets (content : list byte) :
  scan content = Some (marker_offsets content).
Proof.
  unfold scan, marker_offsets.
  change 0 with (Z.of_nat 0).
  by rewrite (scan_loop_offsets content (S (length content)) 0 []) by lia.
Qed.

Lemma occurs_at_slice (content : list byte) (p : nat) :
  occurs_at content p = true
  ↔ slice content (Z.of_nat p) (Z.of_nat p + 4) = DTB_HEADER.
Proof.
  unfold occurs_at, slice.
  replace (Z.to_nat (Z.of_nat p + 4) - Z.to_nat (Z.of_nat p))%nat
    with 4%nat by lia.
  rewrite Nat2Z.id, startswith_app. split.
  - intros [rest ->]. done.
  - intros H. exists (drop 4 (drop p content)).
    rewrite <-H at 1. by rewrite take_drop.
Qed.

Lemma elem_of_offsets_from (content : list byte) (k : nat) (z : Z) :
  z ∈ offsets_from content k
  ↔ ∃ p, z = Z.of_nat p ∧ (k ≤ p)%nat ∧ occurs_at content p = true.
Proof.
  unfold offsets_from. rewrite list_elem_of_fmap. split.
  - intros (p & -> & [Hocc Hin%elem_of_seq]%list_elem_of_filter).
    exists p. split_and!; [done|lia|done].
  - intros (p & -> & Hkp & Hocc). exists p. split; [done|].
    apply list_elem_of_filter. split; [done|]. apply elem_of_seq.
    apply occurs_at_bound in Hocc. lia.
Qed.

Lemma seq_strongly_sorted (k n : nat) : StronglySorted lt (seq k n).
Proof.
  revert k. induction n as [|n IH]; intros k; simpl; constructor; [done|].
  apply Forall_seq. intros; lia.
Qed.

Lemma filter_strongly_sorted {A} (R : relation A) (P : A → Prop)
    `{!∀ x, Decision (P x)} (l : list A) :
  StronglySorted R l → StronglySorted R (filter P l).
Proof.
  induction 1 as [|x l Hl IH Hx]; [constructor|].
  rewrite filter_cons. case_decide; [|done].
  constructor; [done|].
  apply Forall_forall. intros y [_ Hy]%list_elem_of_filter.
  by eapply Forall_forall in Hx.
Qed.

Lemma offsets_from_sorted (content : list byte) (k : nat) :
  StronglySorted Z.lt (offsets_from content k).
Proof.
  unfold offsets_from. eapply StronglySorted_fmap; [intros x y Hxy|].
  - apply Nat2Z.inj_lt, Hxy.
  - apply filter_strongly_sorted, seq_strongly_sorted.
Qed.

Lemma offsets_from_next (content : list byte) (k i : nat) (p : Z) :
  (k ≤ length content)%nat →
  offsets_from content k !! i = Some p →
  ∃ n, p = Z.of_nat n ∧ (S n ≤ length content)%nat ∧
       drop (S i) (offsets_from content k) = offsets_from content (S n).
Proof.
  revert k. induction i as [|i IH]; intros k Hk Hi.
  - destruct (offsets_from_unfold content k Hk)
      as [[_ He]|(n & _ & _ & Hb & _ & _ & He)]; rewrite He in Hi |- *;
      [done|].
    injection Hi as <-. exists n. split_and!; [done|lia|done].
  - destruct (offsets_from_unfold content k Hk)
      as [[_ He]|(n & _ & _ & Hb & _ & _ & He)]; rewrite He in Hi |- *;
      [done|].
    simpl in Hi. destruct (IH (S n)) as (m & -> & Hm & Hd); [lia|done|].
    exists m. split_and!; [done|lia|]. simpl. exact Hd.
Qed.

Lemma find_head_offsets (content : list byte) (k : nat) :
  (k ≤ length content)%nat →
  find content DTB_HEADER (Z.of_nat k)
  = default (-1) (head (offsets_from content k)).
Proof.
  intros Hk.
  by destruct (offsets_from_unfold content k Hk)
    as [[-> ->]|(n & -> & _ & _ & _ & _ & ->)].
Qed.

Lemma elem_of_marker_offsets (content : list byte) (p : Z) :
  p ∈ marker_offsets content
  ↔ 0 ≤ p ∧ slice content p (p + 4) = DTB_HEADER.
Proof.
  unfold marker_offsets. rewrite elem_of_offsets_from. split.
  - intros (n & -> & _ & Hocc). split; [lia|]. by apply occurs_at_slice.
  - intros [Hp Hs]. exists (Z.to_nat p). rewrite <-(Z2Nat.id p) in Hs by done.
    split_and!; [lia|lia|]. by apply occurs_at_slice.
Qed.

(** The run on an input that holds no marker: one informational line, then
    [sys.exit(0)], before any directory or file is touched. *)
Lemma main_no_marker (w : World) (args : Args) (content : list byte) :
  path_exists w (input args) = true →
  read_file w (input args) = Some content →
  marker_offsets content = [] →
  main w args = ([ReadFile (input args); Print MsgNoDTBs], Exit 0).
Proof.
  intros Hex Hread Hnone. unfold main.
  rewrite Hex, Hread, scan_marker_offsets, Hnone. reflexivity.
Qed.

(** C2.  For every buffer the scanner returns, in ascending order, exactly
    the offsets where the four marker bytes stand; the search is
    overlap-inclusive, each offset after the first being what [find] returns
    from one past the offset before it, and the scan ends when that search
    finds nothing.  When the marker stands nowhere the result is the empty
    list, and the run then prints its notice and exits with status 0. *)
Theorem scanner_finds_every_offset (content : list byte) :
  ∃ positions,
    scan content = Some positions ∧
    StronglySorted Z.lt positions ∧
    (∀ p, p ∈ positions ↔ 0 ≤ p ∧ slice content p (p + 4) = DTB_HEADER) ∧
    find content DTB_HEADER 0 = default (-1) (positions !! 0%nat) ∧
    (∀ i p, positions !! i = Some p →
       find content DTB_HEADER (p + 1) = default (-1) (positions !! S i)) ∧
    ((∀ p, 0 ≤ p → slice content p (p + 4) ≠ DTB_HEADER) →
       positions = [] ∧
       ∀ w args,
         path_exists w (input args) = true →
         read_file w (input args) = Some content →
         main w args = ([ReadFile (input args); Print MsgNoDTBs], Exit 0)).
Proof.
  exists (marker_offsets content).
  split_and!.
  - apply scan_marker_offsets.
  - apply offsets_from_sorted.
  - apply elem_of_marker_offsets.
  - change 0 with (Z.of_nat 0). rewrite find_head_offsets by lia.
    by rewrite head_lookup.
  - intros i p Hi.
    destruct (offsets_from_next content 0 i p) as (n & -> & Hn & Hd);
      [lia|done|].
    replace (Z.of_nat n + 1) with (Z.of_nat (S n)) by lia.
    rewrite find_head_offsets by lia. rewrite <-Hd.
    by rewrite head_lookup, lookup_drop, Nat.add_0_r.
  - intros Hno.
    assert (marker_offsets content = []) as Hnil.
    { destruct (marker_offsets content) as [|p l] eqn:E; [done|].
      assert (p ∈ marker_offsets content) as Hp by (rewrite E; left).
      apply elem_of_marker_offsets in Hp as [Hp Hs]. by destruct (Hno p). }
    split; [done|]. intros w args Hex Hread. by eapply main_no_marker.
Qed.

Lemma scanner_finds_every_offset_witness :
  scan [x00; xd0; x0d; xfe] = Some [] ∧
  main world_no_marker sample_args
  = ([ReadFile "boot.img"; Print MsgNoDTBs], Exit 0).
Proof.
  destruct (scanner_finds_every_offset [x00; xd0; x0d; xfe])
    as (positions & Hscan & _ & _ & _ & _ & Hnone).
  destruct Hnone as [-> Hmain].
  - intros p Hp H. pose proof (f_equal length H) as Hlen.
    unfold slice in Hlen. rewrite length_take, length_drop in Hlen.
    simpl in Hlen. assert (p = 0) as -> by lia. discriminate H.
  - split; [exact Hscan|]. by apply Hmain.
Defined.

(** ** Splitter *)

(** The marker has no proper overlap with itself: two places where it
    stands are at least its length apart. *)
Lemma occurs_at_gap (content : list byte) (p q : nat) :
  occurs_at content p = true → occurs_at content q = true →
  (p < q)%nat → (p + 4 ≤ q)%nat.
Proof.
  unfold occurs_at. intros [r1 Hp]%startswith_app [r2 Hq]%startswith_app Hlt.
  destruct (decide (p + 4 ≤ q)%nat) as [|Hclose]; [done|exfalso].
  replace q with (p + (q - p))%nat in Hq by lia.
  rewrite <-drop_drop, Hp in Hq.
  assert (q - p = 1 ∨ q - p = 2 ∨ q - p = 3)%nat as [E | [E | E]] by lia;
    rewrite E in Hq; simpl in Hq; discriminate Hq.
Qed.

Lemma marker_offsets_lookup (content : list byte) (i : nat) (p : Z) :
  marker_offsets content !! i = Some p →
  ∃ n, p = Z.of_nat n ∧ occurs_at content n = true ∧
       (n + 4 ≤ length content)%nat.
Proof.
  intros Hi%list_elem_of_lookup_2.
  apply elem_of_offsets_from in Hi as (n & -> & _ & Hocc).
  exists n. split_and!; [done..|]. by apply occurs_at_bound.
Qed.

Lemma marker_offsets_gap (content : list byte) (i : nat) (p q : Z) :
  marker_offsets content !! i = Some p →
  marker_offsets content !! S i = Some q →
  p + 4 ≤ q.
Proof.
  intros Hp Hq.
  destruct (offsets_from_next content 0 i p) as (n & -> & Hn & Hd);
    [lia|done|].
  assert (q ∈ offsets_from content (S n)) as Hin.
  { rewrite <-Hd. apply list_elem_of_lookup. exists O.
    by rewrite lookup_drop, Nat.add_0_r. }
  apply elem_of_offsets_from in Hin as (m & -> & Hnm & Hm).
  apply marker_offsets_lookup in Hp as (n' & Hn' & Hocc & _).
  apply Nat2Z.inj in Hn' as <-.
  pose proof (occurs_at_gap content n m Hocc Hm). lia.
Qed.

Lemma regions_lookup (content : list byte) (positions : list Z) (i : nat) :
  regions content positions !! i
  = (λ start, slice content start
       (default (Z.of_nat (length content)) (positions !! S i)))
    <$> positions !! i.
Proof.
  unfold regions. rewrite list_lookup_fmap.
  destruct (positions !! i) as [start|] eqn:Hi.
  - rewrite lookup_seq_lt by (by eapply lookup_lt_Some). simpl.
    unfold chunk_at, loop_positions. f_equal.
    rewrite !nth_lookup, Hi. simpl. f_equal.
    destruct (positions !! S i) as [q|] eqn:Hq.
    + by rewrite lookup_app_l, Hq by (by eapply lookup_lt_Some).
    + apply lookup_ge_None in Hq. apply lookup_lt_Some in Hi.
      rewrite lookup_app_r by lia.
      by replace (S i - length positions)%nat with O by lia.
  - rewrite lookup_seq_ge; [done|]. by apply lookup_ge_None.
Qed.

Lemma slice_app_drop (content : list byte) (p q : Z) :
  0 ≤ p ≤ q →
  slice content p q ++ drop (Z.to_nat q) content = drop (Z.to_nat p) content.
Proof.
  intros Hpq. unfold slice.
  rewrite <-(take_drop (Z.to_nat q - Z.to_nat p) (drop (Z.to_nat p) content))
    at 2.
  f_equal. rewrite drop_drop. f_equal. lia.
Qed.

Lemma slice_to_end (content : list byte) (p : Z) :
  slice content p (Z.of_nat (length content)) = drop (Z.to_nat p) content.
Proof.
  unfold slice. apply take_ge. rewrite length_drop. lia.
Qed.

(** The chunks from index [k] on, laid end to end, are the buffer from the
    offset of index [k] on. *)
Lemma concat_chunks_from (content : list byte) (positions : list Z)
    (n k : nat) (p : Z) :
  (∀ i a b, positions !! i = Some a → positions !! S i = Some b → 0 ≤ a ≤ b) →
  (∀ i a, positions !! i = Some a → 0 ≤ a) →
  (length positions - k = S n)%nat →
  positions !! k = Some p →
  concat (chunk_at content positions <$> seq k (S n))
  = drop (Z.to_nat p) content.
Proof.
  intros Hmono Hnonneg. revert k p.
  induction n as [|n IH]; intros k p Hlen Hk.
  - simpl. rewrite app_nil_r.
    pose proof (regions_lookup content positions k) as Hr.
    unfold regions in Hr.
    rewrite list_lookup_fmap, lookup_seq_lt, Hk in Hr by lia. simpl in Hr.
    injection Hr as ->.
    rewrite (proj2 (lookup_ge_None positions (S k))) by lia.
    apply slice_to_end.
  - destruct (positions !! S k) as [q|] eqn:Hq;
      [|apply lookup_ge_None in Hq; lia].
    change (seq k (S (S n))) with (k :: seq (S k) (S n)).
    rewrite fmap_cons, concat_cons, (IH (S k) q) by (done || lia).
    pose proof (regions_lookup content positions k) as Hr.
    unfold regions in Hr.
    rewrite list_lookup_fmap, lookup_seq_lt, Hk, Hq in Hr by lia.
    simpl in Hr. injection Hr as ->.
    apply slice_app_drop. eauto.
Qed.

(** ** Strings *)

Lemma append_cons (a : ascii) (s t : string) :
  String a s +:+ t = String a (s +:+ t).
Proof. reflexivity. Qed.

Lemma append_nil_l (t : string) : EmptyString +:+ t = t.
Proof. reflexivity. Qed.

Lemma append_nil_r (s : string) : s +:+ EmptyString = s.
Proof. induction s as [|a s IH]; [done|]. by rewrite append_cons, IH. Qed.

Lemma append_assoc (s t u : string) : (s +:+ t) +:+ u = s +:+ t +:+ u.
Proof.
  induction s as [|a s IH]; [done|]. by rewrite !append_cons, IH.
Qed.

Lemma length_append (s t : string) :
  String.length (s +:+ t) = (String.length s + String.length t)%nat.
Proof.
  induction s as [|a s IH]; [done|]. rewrite append_cons. simpl. by rewrite IH.
Qed.

Lemma str_take_append (s t : string) : str_take (String.length s) (s +:+ t) = s.
Proof.
  induction s as [|a s IH]; [by destruct t|].
  rewrite append_cons. simpl. by rewrite IH.
Qed.

Lemma str_drop_append (s t : string) : str_drop (String.length s) (s +:+ t) = t.
Proof.
  induction s as [|a s IH]; [by destruct t|]. by rewrite append_cons.
Qed.

Lemma get_append_r (s t : string) (j : nat) :
  String.get (String.length s + j) (s +:+ t) = String.get j t.
Proof. induction s as [|a s IH]; [done|]. rewrite append_cons. exact IH. Qed.

Lemma contains_append (c : ascii) (s t : string) :
  contains c (s +:+ t) = contains c s || contains c t.
Proof.
  induction s as [|a s IH]; [done|]. rewrite append_cons. simpl.
  by destruct (decide (a = c)).
Qed.

Lemma all_dots_append (s t : string) :
  all_dots (s +:+ t) = all_dots s && all_dots t.
Proof.
  induction s as [|a s IH]; [done|]. rewrite append_cons. simpl.
  by rewrite IH, andb_assoc.
Qed.

Lemma all_dots_false (s : string) :
  all_dots s = false → ∃ j c, String.get j s = Some c ∧ c ≠ dot.
Proof.
  induction s as [|a s IH]; [done|]. simpl.
  destruct (decide (a = dot)) as [->|Ha].
  - rewrite bool_decide_eq_true_2 by done. simpl.
    intros (j & c & Hj & Hc)%IH. by exists (S j), c.
  - intros _. by exists O, a.
Qed.

Lemma all_dots_get (s : string) (j : nat) :
  all_dots s = true → (j < String.length s)%nat → String.get j s = Some dot.
Proof.
  revert j. induction s as [|a s IH]; intros j; simpl; [lia|].
  intros [Ha%bool_decide_eq_true Hs]%andb_true_iff Hj.
  destruct j as [|j]; [by subst|]. apply IH; [done|lia].
Qed.

Lemma ends_in_slash_dots_append (s t : string) :
  all_dots t = false →
  ends_in_slash_dots (s +:+ t) = ends_in_slash_dots t.
Proof.
  intros Ht. induction s as [|a s IH]; [done|]. rewrite append_cons. simpl.
  by rewrite all_dots_append, Ht, andb_false_r, andb_false_r, IH.
Qed.

Lemma ends_in_slash_dots_intro (s t : string) :
  all_dots t = true → ends_in_slash_dots (s +:+ String slash t) = true.
Proof.
  intros Ht. induction s as [|a s IH].
  - rewrite append_nil_l. simpl. by rewrite Ht.
  - rewrite append_cons. simpl. by rewrite IH, orb_true_r.
Qed.

Lemma ends_in_slash_dots_elim (s : string) :
  ends_in_slash_dots s = true →
  ∃ x y, s = x +:+ String slash y ∧ all_dots y = true.
Proof.
  induction s as [|a s IH]; [done|]. simpl.
  intros [[Ha%bool_decide_eq_true Hs]%andb_true_iff|Hs]%orb_true_iff.
  - subst a. by exists EmptyString, s.
  - destruct (IH Hs) as (x & y & -> & Hy). by exists (String a x), y.
Qed.

(** ** [os.path.splitext] *)

Lemma rfind_from_shape (c : ascii) (s : string) (i last : Z) :
  (contains c s = false ∧ rfind_from c s i last = last)
  ∨ (∃ s1 s2, s = s1 +:+ String c s2 ∧ contains c s2 = false ∧
       rfind_from c s i last = i + Z.of_nat (String.length s1)).
Proof.
  revert i last. induction s as [|a s IH]; intros i last; simpl; [by left|].
  destruct (IH (i + 1) (if decide (a = c) then i else last))
    as [[Hno Hr]|(s1 & s2 & -> & Hno & Hr)].
  - destruct (decide (a = c)) as [->|Hac].
    + right. exists EmptyString, s. split_and!; [done..|]. rewrite Hr. simpl. lia.
    + by left.
  - right. exists (String a s1), s2. rewrite append_cons.
    split_and!; [done..|]. rewrite Hr. simpl String.length. lia.
Qed.

Lemma rfind_shape (c : ascii) (s : string) :
  (contains c s = false ∧ rfind c s = -1)
  ∨ (∃ s1 s2, s = s1 +:+ String c s2 ∧ contains c s2 = false ∧
       rfind c s = Z.of_nat (String.length s1)).
Proof. apply (rfind_from_shape c s 0 (-1)). Qed.

Lemma rfind_from_append (c : ascii) (s t : string) (i last : Z) :
  rfind_from c (s +:+ t) i last
  = rfind_from c t (i + Z.of_nat (String.length s)) (rfind_from c s i last).
Proof.
  revert i last. induction s as [|a s IH]; intros i last.
  - rewrite append_nil_l. simpl. by rewrite Z.add_0_r.
  - rewrite append_cons. simpl rfind_from. rewrite IH. f_equal.
    simpl String.length. lia.
Qed.

Lemma leading_dots_loop_true (p : string) (k n : nat) :
  (∃ j c, (k ≤ j < k + n)%nat ∧ String.get j p = Some c ∧ c ≠ dot) →
  leading_dots_loop p k n = true.
Proof.
  revert k. induction n as [|n IH]; intros k (j & c & Hj & Hget & Hc);
    [lia|].
  simpl. destruct (String.get k p) as [a|] eqn:Hk; [|done].
  destruct (decide (a = dot)) as [->|]; [|done].
  apply IH. exists j, c. split_and!; [|lia|done..].
  destruct (decide (j = k)) as [->|]; [congruence|lia].
Qed.

Lemma leading_dots_loop_false (p : string) (k n : nat) :
  (∀ j, (k ≤ j < k + n)%nat → String.get j p = Some dot) →
  leading_dots_loop p k n = false.
Proof.
  revert k. induction n as [|n IH]; intros k Hdots; [done|].
  simpl. rewrite Hdots by lia. rewrite decide_True by done.
  apply IH. intros j Hj. apply Hdots. lia.
Qed.

Lemma get_Some_lt (s : string) (j : nat) (c : ascii) :
  String.get j s = Some c → (j < String.length s)%nat.
Proof.
  revert j. induction s as [|a s IH]; intros j; [done|].
  destruct j as [|j]; simpl; [lia|]. intros ?%IH. lia.
Qed.

Lemma get_append_l (s t : string) (j : nat) :
  (j < String.length s)%nat → String.get j (s +:+ t) = String.get j s.
Proof. intros Hj. symmetry. by apply String.append_correct1. Qed.

Lemma rfind_dot_dtb (body : string) :
  rfind dot (body +:+ ".dtb") = Z.of_nat (String.length body).
Proof. unfold rfind. rewrite rfind_from_append. simpl. lia. Qed.

Lemma rfind_slash_dtb (body : string) :
  rfind slash (body +:+ ".dtb") = rfind slash body.
Proof. unfold rfind. by rewrite rfind_from_append. Qed.

Lemma ends_in_slash_dots_contains (s : string) :
  ends_in_slash_dots s = true → contains slash s = true.
Proof.
  intros (x & y & -> & _)%ends_in_slash_dots_elim.
  rewrite contains_append. simpl. apply orb_true_r.
Qed.

Lemma ends_in_slash_dots_last (s1 s2 : string) :
  contains slash s2 = false →
  ends_in_slash_dots (s1 +:+ String slash s2) = all_dots s2.
Proof.
  intros Hno. induction s1 as [|a s1 IH].
  - rewrite append_nil_l. simpl.
    destruct (ends_in_slash_dots s2) eqn:E.
    + apply ends_in_slash_dots_contains in E. congruence.
    + by rewrite orb_false_r.
  - rewrite append_cons. simpl. rewrite IH, all_dots_append. simpl.
    by rewrite andb_false_r, andb_false_r.
Qed.

(** The last path component of [body]: where it starts, that it is within
    [body], and when it is made of dots only. *)
Lemma rfind_slash_component (body : string) :
  ∃ s1 s2, body = s1 +:+ s2 ∧
    -1 ≤ rfind slash body < Z.of_nat (String.length body) ∧
    Z.to_nat (rfind slash body + 1) = String.length s1 ∧
    all_dots s2 = all_dots body || ends_in_slash_dots body.
Proof.
  destruct (rfind_shape slash body) as [[Hno ->]|(s1 & s2 & -> & Hno & ->)].
  - exists EmptyString, body. split_and!; [done|lia|lia|simpl; lia|].
    destruct (ends_in_slash_dots body) eqn:E.
    + apply ends_in_slash_dots_contains in E. congruence.
    + by rewrite orb_false_r.
  - exists (s1 +:+ String slash EmptyString), s2.
    rewrite append_assoc, append_cons, append_nil_l.
    rewrite !length_append. simpl String.length.
    split_and!; [done|lia|lia|lia|].
    rewrite ends_in_slash_dots_last, all_dots_append by done. simpl.
    by rewrite andb_false_r.
Qed.

(** [splitext] on a name that ends in [.dtb]: the extension is split off
    when the last path component of the stem has a character that is not a
    dot. *)
Lemma splitext_dtb (body : string) :
  all_dots body = false → ends_in_slash_dots body = false →
  splitext (body +:+ ".dtb") = (body, ".dtb").
Proof.
  intros Hdots Hends. unfold splitext.
  rewrite rfind_dot_dtb, rfind_slash_dtb, Nat2Z.id.
  destruct (rfind_slash_component body)
    as (s1 & s2 & Hbody & Hlt & Hstart & Hcomp).
  rewrite Hstart, Hdots, Hends in *.
  destruct (Z.ltb_spec (rfind slash body) (Z.of_nat (String.length body)));
    [|lia].
  rewrite leading_dots_loop_true.
  - simpl. by rewrite str_take_append, str_drop_append.
  - destruct (all_dots_false _ Hcomp) as (j & c & Hget & Hc).
    exists (String.length s1 + j)%nat, c.
    pose proof (get_Some_lt _ _ _ Hget) as Hj.
    assert (String.length body = String.length s1 + String.length s2)%nat
      as Hlen by (by rewrite Hbody, length_append).
    split_and!; [lia|lia| |done].
    rewrite get_append_l by lia. by rewrite Hbody, get_append_r.
Qed.

(** Otherwise the whole name is the root and the extension is empty. *)
Lemma splitext_dtb_dots (body : string) :
  all_dots body || ends_in_slash_dots body = true →
  splitext (body +:+ ".dtb") = (body +:+ ".dtb", EmptyString).
Proof.
  intros Hcase. unfold splitext.
  rewrite rfind_dot_dtb, rfind_slash_dtb.
  destruct (rfind_slash_component body)
    as (s1 & s2 & Hbody & Hlt & Hstart & Hcomp).
  rewrite Hstart. rewrite Hcase in Hcomp.
  rewrite leading_dots_loop_false; [by rewrite andb_false_r|].
  assert (String.length body = String.length s1 + String.length s2)%nat
    as Hlen by (by rewrite Hbody, length_append).
  intros j Hj. rewrite get_append_l by lia.
  replace j with (String.length s1 + (j - String.length s1))%nat by lia.
  rewrite Hbody, get_append_r. apply all_dots_get; [done|lia].
Qed.

(** ** Name generator *)

Lemma canonical_name_stem (arg1 arg2 arg3 : string) :
  canonical_name arg1 arg2 arg3 = stem arg1 arg2 arg3 +:+ ".dtb".
Proof. unfold canonical_name, stem. by rewrite !append_assoc. Qed.

Lemma canonical_name_nonempty (arg1 arg2 arg3 : string) :
  canonical_name arg1 arg2 arg3 ≠ EmptyString.
Proof.
  unfold canonical_name. intros H%(f_equal String.length).
  rewrite length_append in H. simpl in H. lia.
Qed.

Lemma stem_all_dots (arg1 arg2 arg3 : string) :
  all_dots (stem arg1 arg2 arg3) = false.
Proof. unfold stem. rewrite all_dots_append. simpl. apply andb_false_r. Qed.

Lemma stem_ends_in_slash_dots (arg1 arg2 arg3 : string) :
  ends_in_slash_dots (stem arg1 arg2 arg3) = ends_in_slash_dots arg3.
Proof.
  unfold stem.
  rewrite <-(append_assoc arg1), <-(append_assoc (arg1 +:+ "-")).
  by rewrite ends_in_slash_dots_append.
Qed.

Lemma splitext_canonical (arg1 arg2 arg3 : string) :
  splitext (canonical_name arg1 arg2 arg3)
  = if ends_in_slash_dots arg3
    then (canonical_name arg1 arg2 arg3, EmptyString)
    else (stem arg1 arg2 arg3, ".dtb").
Proof.
  rewrite canonical_name_stem.
  destruct (ends_in_slash_dots arg3) eqn:E.
  - apply splitext_dtb_dots.
    by rewrite stem_ends_in_slash_dots, E, orb_true_r.
  - apply splitext_dtb; [apply stem_all_dots|].
    by rewrite stem_ends_in_slash_dots.
Qed.

Lemma truthy_Some (n : string) : n ≠ EmptyString → truthy (Some n) = Some n.
Proof. by destruct n. Qed.

Lemma truthy_Some_inv (new_name : option string) (n : string) :
  truthy new_name = Some n → new_name = Some n ∧ n ≠ EmptyString.
Proof. destruct new_name as [[|a s]|]; simpl; [done| |done]. by intros [= <-]. Qed.

Lemma uses_resolve_name (used_names : gmap string nat) (n m : string) :
  uses (resolve_name used_names n).1 m
  = (uses used_names m + if decide (n = m) then 1 else 0)%nat.
Proof.
  unfold resolve_name, uses.
  destruct (used_names !! n) as [c|] eqn:Hn; [destruct (splitext n)|];
    simpl; destruct (decide (n = m)) as [<-|Hnm];
    rewrite ?lookup_insert_eq, ?lookup_insert_ne, ?Hn by done; simpl; lia.
Qed.

Lemma uses_final_name_of (used_names : gmap string nat) (i : nat)
    (new_name : option string) (m : string) :
  m ≠ EmptyString →
  uses (final_name_of used_names i new_name).1 m
  = (uses used_names m + if decide (new_name = Some m) then 1 else 0)%nat.
Proof.
  intros Hm. unfold final_name_of.
  destruct (truthy new_name) as [n|] eqn:Ht.
  - apply truthy_Some_inv in Ht as [-> Hn]. rewrite uses_resolve_name.
    destruct (decide (n = m)) as [->|]; [by rewrite decide_True|].
    rewrite decide_False; [done|congruence].
  - simpl. rewrite decide_False; [lia|]. intros ->.
    by rewrite truthy_Some in Ht.
Qed.

Lemma uses_registry_after (news : list (option string))
    (used_names : gmap string nat) (i : nat) (m : string) :
  m ≠ EmptyString →
  uses (registry_after used_names i news) m
  = (uses used_names m + occurrences m news)%nat.
Proof.
  intros Hm. revert used_names i.
  induction news as [|new_name news IH]; intros used_names i; simpl.
  - unfold occurrences. simpl. lia.
  - rewrite IH, uses_final_name_of by done. unfold occurrences.
    rewrite filter_cons. destruct (decide (new_name = Some m)); simpl; lia.
Qed.

Lemma names_from_lookup (news : list (option string))
    (used_names : gmap string nat) (i j : nat) :
  names_from used_names i news !! j
  = (λ new_name,
       (final_name_of (registry_after used_names i (take j news)) (i + j)
          new_name).2) <$> news !! j.
Proof.
  revert used_names i j.
  induction news as [|new_name news IH]; intros used_names i j; [done|].
  simpl. destruct (final_name_of used_names i new_name) as [used' name] eqn:E.
  destruct j as [|j]; simpl.
  - by rewrite Nat.add_0_r, E.
  - rewrite IH, E. simpl. by replace (i + S j)%nat with (S (i + j)) by lia.
Qed.

Lemma registry_after_snoc (news : list (option string))
    (used_names : gmap string nat) (i : nat) (new_name : option string) :
  registry_after used_names i (news ++ [new_name])
  = (final_name_of (registry_after used_names i news) (i + length news)
       new_name).1.
Proof.
  revert used_names i.
  induction news as [|x news IH]; intros used_names i; simpl.
  - by rewrite Nat.add_0_r.
  - rewrite IH. by replace (S i + length news)%nat
      with (i + S (length news))%nat by lia.
Qed.

(** ** The computation monad *)

Lemma bind_trace {A B} (m : io A) (f : A → io B) :
  (m ≫= f).1 = m.1 ++ match m.2 with Ret a => (f a).1 | _ => [] end.
Proof.
  unfold mbind, io_bind. destruct m as [t [a| | |]]; simpl;
    by rewrite ?app_nil_r.
Qed.

Lemma bind_outcome {A B} (m : io A) (f : A → io B) :
  (m ≫= f).2 = match m.2 with
               | Ret a => (f a).2
               | Exit status => Exit status
               | Raise => Raise
               | Diverge => Diverge
               end.
Proof. unfold mbind, io_bind. by destruct m as [t [a| | |]]. Qed.

(** Push the projections of a computation through its binds. *)
Ltac io_steps :=
  repeat (rewrite ?bind_trace, ?bind_outcome; cbn [fst snd emit print]).

Lemma for_each_cons {S} (body : nat → S → io S) (i : nat) (idx : list nat)
    (s : S) :
  for_each body (i :: idx) s = body i s ≫= for_each body idx.
Proof. reflexivity. Qed.

(** ** Decode adapter *)

Lemma get_readable_name_returns (w : World) (dtb_path : string)
    (content : list byte) :
  ∃ t new_name,
    get_readable_name w dtb_path content = (t, Ret new_name) ∧
    Forall (λ e, touches_disk e = false) t.
Proof.
  unfold get_readable_name.
  destruct (run_dtc w dtb_path content) as [[returncode stdout]|].
  - case_bool_decide.
    + eexists _, _. split; [reflexivity|]. by repeat constructor.
    + destruct (name_of_dts stdout);
        (eexists _, _; split; [reflexivity|]; by repeat constructor).
  - eexists _, _. split; [reflexivity|]. by repeat constructor.
Qed.

Lemma touches_disk_dumped (t : list event) :
  Forall (λ e, touches_disk e = false) t → dumped t = [] ∧ renamed t = [].
Proof.
  induction 1 as [|e t He _ [IH1 IH2]]; [done|].
  unfold dumped, renamed in *. by destruct e; simpl in *.
Qed.

Lemma get_readable_name_decode_at (w : World) (args : Args)
    (content : list byte) (positions : list Z) (i : nat) :
  ∃ t,
    get_readable_name w (temp_path args i) (chunk_at content positions i)
    = (t, Ret (decode_at w args content positions i)) ∧
    dumped t = [] ∧ renamed t = [].
Proof.
  unfold decode_at, returned.
  destruct (get_readable_name_returns w (temp_path args i)
              (chunk_at content positions i)) as (t & x & -> & Ht).
  exists t. split; [done|]. by apply touches_disk_dumped.
Qed.

(** ** One iteration of the loop *)

Lemma dumped_app (t1 t2 : list event) : dumped (t1 ++ t2) = dumped t1 ++ dumped t2.
Proof. apply omap_app. Qed.

Lemma renamed_app (t1 t2 : list event) :
  renamed (t1 ++ t2) = renamed t1 ++ renamed t2.
Proof. apply omap_app. Qed.

Lemma region_body_shape (w : World) (args : Args) (content : list byte)
    (positions : list Z) (i : nat) (used_names : gmap string nat) :
  let r := region_body w args content positions i used_names in
  let tp := temp_path args i in
  let named :=
    final_name_of used_names i (decode_at w args content positions i) in
  let dst := path_join (out_dir args) named.2 in
  dumped r.1 = [(tp, chunk_at content positions i)] ∧
  r.2 = (if write_ok w tp && rename_ok w tp dst then Ret named.1 else Raise) ∧
  renamed r.1 = (if write_ok w tp then [(tp, dst)] else []).
Proof.
  intros r tp named dst. subst r named dst tp.
  destruct (get_readable_name_decode_at w args content positions i)
    as (t & Hg & Hd & Hr).
  unfold region_body, final_name_of, dump_file, call. fold (temp_path args i).
  rewrite bind_trace, bind_outcome. cbn [fst snd].
  destruct (write_ok w (temp_path args i)); cbn [andb]; [|done].
  rewrite bind_trace, bind_outcome, Hg. cbn [fst snd].
  destruct (truthy (decode_at w args content positions i)) as [n|].
  - destruct (resolve_name used_names n) as [used' name]. cbn [fst snd].
    rewrite !bind_trace, !bind_outcome. cbn [fst snd].
    rewrite !dumped_app, !renamed_app, Hd, Hr.
    by destruct (rename_ok w _ _).
  - rewrite !bind_trace, !bind_outcome. cbn [fst snd].
    rewrite !dumped_app, !renamed_app, Hd, Hr.
    by destruct (rename_ok w _ _).
Qed.

(** ** The loop *)

Lemma for_each_disk_ok (w : World) (args : Args) (content : list byte)
    (positions : list Z) (m k : nat) (used_names : gmap string nat) :
  disk_ok w →
  let r := for_each (region_body w args content positions) (seq k m)
             used_names in
  let news := decode_at w args content positions <$> seq k m in
  r.2 = Ret (registry_after used_names k news) ∧
  dumped r.1
  = (λ i, (temp_path args i, chunk_at content positions i)) <$> seq k m ∧
  renamed r.1
  = zip_with (λ i name, (temp_path args i, path_join (out_dir args) name))
      (seq k m) (names_from used_names k news).
Proof.
  intros (_ & Hwrite & Hrename). revert k used_names.
  induction m as [|m IH]; intros k used_names; [done|].
  cbn zeta. change (seq k (S m)) with (k :: seq (S k) m).
  rewrite for_each_cons, bind_trace, bind_outcome.
  destruct (region_body_shape w args content positions k used_names)
    as (Hd & Ho & Hr).
  rewrite Hwrite in Hr. rewrite Hwrite, Hrename in Ho. cbn [andb] in Ho.
  rewrite Ho.
  rewrite dumped_app, renamed_app, Hd, Hr.
  destruct (IH (S k)
    (final_name_of used_names k (decode_at w args content positions k)).1)
    as (IHo & IHd & IHr).
  rewrite IHo, IHd, IHr. rewrite !fmap_cons. cbn [registry_after names_from].
  destruct (final_name_of used_names k (decode_at w args content positions k))
    as [used' name].
  done.
Qed.

(** ** The whole run *)

(** With a working disk the run returns normally whatever the decompiler
    does: every region is dumped under its temporary name and renamed to the
    name the naming pass gives it. *)
Lemma main_disk_ok (w : World) (args : Args) (content : list byte)
    (positions : list Z) :
  disk_ok w →
  path_exists w (input args) = true →
  read_file w (input args) = Some content →
  scan content = Some positions →
  positions ≠ [] →
  let r := main w args in
  let idx := seq 0 (length positions) in
  let news := decode_at w args content positions <$> idx in
  r.2 = Ret () ∧
  dumped r.1
  = (λ i, (temp_path args i, chunk_at content positions i)) <$> idx ∧
  renamed r.1
  = zip_with (λ i name, (temp_path args i, path_join (out_dir args) name))
      idx (names_from ∅ 0 news).
Proof.
  intros Hdisk Hex Hread Hscan Hne. cbn zeta. unfold main.
  rewrite Hex, Hread, Hscan. cbn [negb].
  destruct positions as [|p ps]; [done|].
  destruct (for_each_disk_ok w args content (p :: ps) (length (p :: ps)) 0 ∅
              Hdisk) as (Ho & Hd & Hr).
  destruct Hdisk as (Hmk & _ & _).
  unfold call. rewrite Hmk.
  io_steps.
  rewrite Ho. cbn [fst snd emit print].
  rewrite !dumped_app, !renamed_app, Hd, Hr.
  split_and!; [done|..]; cbn [dumped renamed omap list_omap app];
    by rewrite app_nil_r.
Qed.

(** ** The field pattern *)

Lemma skip_literal_iff (lit s r : string) :
  skip_literal lit s = Some r ↔ s = lit +:+ r.
Proof.
  revert s. induction lit as [|a lit IH]; intros s; simpl.
  - rewrite append_nil_l. split; congruence.
  - destruct s as [|b s]; [done|]. rewrite append_cons.
    destruct (decide (a = b)) as [->|Hab].
    + rewrite IH. split; congruence.
    + split; [done|]. congruence.
Qed.

Lemma expect_iff (c : ascii) (s r : string) :
  expect c s = Some r ↔ s = String c r.
Proof.
  destruct s as [|a s]; simpl; [done|].
  destruct (decide (a = c)) as [->|Hac]; split; congruence.
Qed.

Lemma lstrip_append (ws r : string) :
  all_space ws = true → lstrip (ws +:+ r) = lstrip r.
Proof.
  induction ws as [|c ws IH]; [done|]. simpl.
  intros [Hc Hws]%andb_true_iff. rewrite ?append_cons. simpl.
  rewrite Hc. by apply IH.
Qed.

Lemma lstrip_shape (s : string) :
  ∃ ws, s = ws +:+ lstrip s ∧ all_space ws = true.
Proof.
  induction s as [|c s (ws & IH1 & IH2)]; simpl.
  - by exists EmptyString.
  - destruct (isspace c) eqn:Hc.
    + exists (String c ws). rewrite append_cons, <-IH1. simpl.
      by rewrite Hc, IH2.
    + by exists EmptyString.
Qed.

Lemma lstrip_nonspace (c : ascii) (s : string) :
  isspace c = false → lstrip (String c s) = String c s.
Proof. intros Hc. simpl. by rewrite Hc. Qed.

Lemma lazy_group_iff (s v : string) :
  lazy_group s = Some v
  ↔ ∃ rest, s = v +:+ String dquote rest ∧
      contains newline v = false ∧ contains dquote v = false.
Proof.
  revert v. induction s as [|c s IH]; intros v; simpl.
  - split; [done|]. intros (rest & H & _). by destruct v.
  - destruct (decide (c = dquote)) as [->|Hq].
    + split.
      * intros [= <-]. by exists s.
      * intros (rest & H & _ & Hv). destruct v as [|a v]; [done|].
        rewrite append_cons in H. injection H as <- _. by simpl in Hv.
    + destruct (decide (c = newline)) as [->|Hn].
      * split; [done|]. intros (rest & H & Hv & _).
        destruct v as [|a v]; [by injection H|].
        rewrite append_cons in H. injection H as <- _. by simpl in Hv.
      * rewrite fmap_Some. setoid_rewrite IH. split.
        -- intros (g & (rest & -> & Hg1 & Hg2) & ->). exists rest. simpl.
           by rewrite !decide_False by done.
        -- intros (rest & H & Hv1 & Hv2).
           destruct v as [|a v]; [by injection H|].
           rewrite append_cons in H. injection H as <- ->.
           simpl in Hv1, Hv2.
           rewrite decide_False in Hv1 by done.
           rewrite decide_False in Hv2 by done.
           exists v. split; [|done]. by exists rest.
Qed.

(** The matcher accepts exactly what the pattern means. *)
Lemma match_field_iff (key s v : string) :
  match_field key s = Some v ↔ field_at key s v.
Proof.
  unfold match_field, field_at. split.
  - destruct (skip_literal key s) as [s1|] eqn:H1; simpl; [|done].
    destruct (expect "="%char (lstrip s1)) as [s2|] eqn:H2; simpl; [|done].
    destruct (expect dquote (lstrip s2)) as [s3|] eqn:H3; simpl; [|done].
    intros (rest & -> & Hv1 & Hv2)%lazy_group_iff.
    apply skip_literal_iff in H1 as ->.
    apply expect_iff in H2. apply expect_iff in H3.
    destruct (lstrip_shape s1) as (ws1 & E1 & Hws1).
    destruct (lstrip_shape s2) as (ws2 & E2 & Hws2).
    exists ws1, ws2, rest. rewrite H2 in E1. rewrite H3 in E2.
    by rewrite E1, E2.
  - intros (ws1 & ws2 & rest & -> & Hws1 & Hws2 & Hv1 & Hv2).
    rewrite (proj2 (skip_literal_iff key _ _) eq_refl). simpl.
    rewrite lstrip_append, lstrip_nonspace by done. simpl.
    rewrite lstrip_append, lstrip_nonspace by done. simpl.
    apply lazy_group_iff. by exists rest.
Qed.

(** [re.search] returns the group of the leftmost position where the
    pattern matches, and [None] when it matches nowhere. *)
Lemma re_search_field_Some (key s v : string) :
  re_search_field key s = Some v
  ↔ ∃ pre post,
      s = pre +:+ post ∧ field_at key post v ∧
      ∀ pre' post' v',
        s = pre' +:+ post' → (String.length pre' < String.length pre)%nat →
        ¬ field_at key post' v'.
Proof.
  revert v. induction s as [|c s IH]; intros v.
  - simpl. destruct (match_field key EmptyString) as [g|] eqn:Hm.
    + split.
      * intros [= <-]. exists EmptyString, EmptyString.
        split_and!; [done|by apply match_field_iff|simpl; lia].
      * intros (pre & post & H & Hf & _). destruct pre; [|done].
        rewrite append_nil_l in H. subst post.
        apply match_field_iff in Hf. congruence.
    + split; [done|]. intros (pre & post & H & Hf & _).
      destruct pre; [|done]. rewrite append_nil_l in H. subst post.
      apply match_field_iff in Hf. congruence.
  - simpl. destruct (match_field key (String c s)) as [g|] eqn:Hm.
    + split.
      * intros [= <-]. exists EmptyString, (String c s).
        split_and!; [done|by apply match_field_iff|simpl; lia].
      * intros (pre & post & H & Hf & Hmin).
        destruct pre as [|a pre].
        -- rewrite append_nil_l in H. subst post.
           apply match_field_iff in Hf. congruence.
        -- exfalso. apply (Hmin EmptyString (String c s) g);
             [done|simpl; lia|by apply match_field_iff].
    + rewrite IH. split.
      * intros (pre & post & -> & Hf & Hmin).
        exists (String c pre), post. split_and!; [done..|].
        intros [|a pre'] post' v' H Hlen Hf'.
        -- rewrite append_nil_l in H. subst post'.
           apply match_field_iff in Hf'. congruence.
        -- rewrite !append_cons in H. injection H as _ H.
           apply (Hmin pre' post' v'); [done|simpl in Hlen; lia|done].
      * intros (pre & post & H & Hf & Hmin).
        destruct pre as [|a pre].
        -- rewrite append_nil_l in H. subst post.
           apply match_field_iff in Hf. congruence.
        -- rewrite append_cons in H. injection H as Hc Hs. subst c s.
           exists pre, post. split_and!; [done..|].
           intros pre' post' v' E Hlen.
           apply (Hmin (String a pre') post' v'); [|simpl; lia].
           by rewrite append_cons, E.
Qed.

(** ** Trimming *)

Lemma rstrip_shape (s : string) :
  ∃ ws, s = rstrip s +:+ ws ∧ all_space ws = true.
Proof.
  induction s as [|c s (ws & IH1 & IH2)]; simpl.
  - by exists EmptyString.
  - destruct (rstrip s) as [|a r] eqn:Hr.
    + rewrite append_nil_l in IH1. subst ws.
      destruct (isspace c) eqn:Hc.
      * exists (String c s). simpl. by rewrite Hc, IH2.
      * by exists s.
    + exists ws. by rewrite append_cons, <-IH1.
Qed.

(** [strip] removes a run of white space at each end and nothing else. *)
Lemma strip_shape (s : string) :
  ∃ ws1 ws2, s = ws1 +:+ strip s +:+ ws2 ∧
    all_space ws1 = true ∧ all_space ws2 = true.
Proof.
  destruct (lstrip_shape s) as (ws1 & E1 & H1).
  destruct (rstrip_shape (lstrip s)) as (ws2 & E2 & H2).
  exists ws1, ws2. unfold strip. by rewrite <-E2, <-E1.
Qed.

Lemma lstrip_no_leading_space (s r : string) (c : ascii) :
  lstrip s = String c r → isspace c = false.
Proof.
  induction s as [|a s IH]; simpl; [done|].
  destruct (isspace a) eqn:Ha; [done|]. by intros [= <- _].
Qed.

Lemma rstrip_no_trailing_space (s r : string) (c : ascii) :
  rstrip s = r +:+ String c EmptyString → isspace c = false.
Proof.
  revert r. induction s as [|a s IH]; intros r; simpl.
  - by destruct r.
  - destruct (rstrip s) as [|b t] eqn:Hr.
    + destruct (isspace a) eqn:Ha; [by destruct r|].
      destruct r as [|x [|y r]]; [by intros [= <-]|done..].
    + destruct r as [|x r]; [done|]. rewrite append_cons.
      intros [= _ H]. by apply (IH r).
Qed.

(** * The claims *)

Lemma scan_inv (content : list byte) (positions : list Z) :
  scan content = Some positions → positions = marker_offsets content.
Proof. rewrite scan_marker_offsets. by intros [= <-]. Qed.

Lemma marker_offsets_mono (content : list byte) (i : nat) (a b : Z) :
  marker_offsets content !! i = Some a →
  marker_offsets content !! S i = Some b → 0 ≤ a ≤ b.
Proof.
  intros Ha Hb. pose proof (marker_offsets_gap _ _ _ _ Ha Hb).
  apply marker_offsets_lookup in Ha as (n & -> & _). lia.
Qed.

Lemma concat_regions (content : list byte) (first : Z) (rest : list Z) :
  marker_offsets content = first :: rest →
  concat (regions content (first :: rest)) = drop (Z.to_nat first) content.
Proof.
  intros Hm. unfold regions.
  apply (concat_chunks_from content (first :: rest) (length rest) 0 first);
    rewrite <-?Hm; [| |rewrite Hm; simpl; lia|by rewrite Hm].
  - apply marker_offsets_mono.
  - intros i a (n & -> & _)%marker_offsets_lookup. lia.
Qed.

(** C1.  When the buffer holds the marker, the splitter makes one chunk per
    offset, in the order of the offsets; chunk [i] is the slice from offset
    [i] to offset [i+1], the last one to the end of the buffer; the chunks
    laid end to end are the buffer from the first offset on, so the bytes
    before the first offset are in no chunk and every chunk starts at or
    after it; and these chunks are what a run hands to [dump_file]. *)
Theorem splitter_partitions_buffer (content : list byte) (first : Z)
    (rest : list Z) :
  scan content = Some (first :: rest) →
  let positions := first :: rest in
  let chunks := regions content positions in
  length chunks = length positions ∧
  (∀ i start, positions !! i = Some start →
     chunks !! i
     = Some (slice content start
               (default (Z.of_nat (length content)) (positions !! S i)))) ∧
  concat chunks = drop (Z.to_nat first) content ∧
  take (Z.to_nat first) content ++ concat chunks = content ∧
  (∀ i start, positions !! i = Some start → first ≤ start) ∧
  (∀ w args,
     disk_ok w → path_exists w (input args) = true →
     read_file w (input args) = Some content →
     (dumped (main w args).1).*2 = chunks).
Proof.
  intros Hscan positions chunks. subst positions chunks.
  pose proof (scan_inv _ _ Hscan) as Hm.
  assert (concat (regions content (first :: rest))
          = drop (Z.to_nat first) content) as Hcat
    by (by apply concat_regions).
  split_and!.
  - unfold regions. by rewrite length_fmap, length_seq.
  - intros i start Hi. by rewrite regions_lookup, Hi.
  - exact Hcat.
  - rewrite Hcat. apply take_drop.
  - intros i start Hi.
    pose proof (offsets_from_sorted content 0) as Hs.
    fold (marker_offsets content) in Hs. rewrite <-Hm in Hs.
    apply StronglySorted_inv in Hs as [_ Hall].
    destruct i as [|i]; simpl in Hi; [injection Hi as <-; lia|].
    apply list_elem_of_lookup_2 in Hi.
    eapply Forall_forall in Hall; [|done]. lia.
  - intros w args Hdisk Hex Hread.
    destruct (main_disk_ok w args content (first :: rest))
      as (_ & Hd & _); [done..|].
    rewrite Hd, <-list_fmap_compose. unfold regions.
    by apply list_fmap_ext.
Qed.

Lemma splitter_partitions_buffer_witness :
  scan sample_image = Some [1; 7; 11] ∧
  regions sample_image [1; 7; 11]
  = [[xd0; x0d; xfe; xed; x01; x02]; [xd0; x0d; xfe; xed];
     [xd0; x0d; xfe; xed; x07]] ∧
  concat (regions sample_image [1; 7; 11]) = drop 1 sample_image.
Proof.
  split; [reflexivity|]. split; [reflexivity|].
  apply (splitter_partitions_buffer sample_image 1 [7; 11] eq_refl).
Defined.

Lemma slice_of_marker (content : list byte) (n : nat) (e : Z) :
  occurs_at content n = true → Z.of_nat n + 4 ≤ e →
  take 4 (slice content (Z.of_nat n) e) = DTB_HEADER ∧
  (4 ≤ length (slice content (Z.of_nat n) e))%nat.
Proof.
  intros Hocc He. pose proof (occurs_at_bound _ _ Hocc) as Hb.
  unfold occurs_at in Hocc. apply startswith_app in Hocc as [r Hr].
  unfold slice. rewrite Nat2Z.id. split.
  - rewrite take_take, Hr. replace (4 `min` (Z.to_nat e - n))%nat with 4%nat
      by lia. done.
  - rewrite length_take, length_drop. lia.
Qed.

(** C9.  When the input path does not exist the run prints its error and
    exits with status 1, having made no directory and written no file; when
    the input is there and holds no marker the run prints its notice and
    exits with status 0, again without touching the disk. *)
Theorem missing_input_fatal_no_marker_clean (w : World) (args : Args) :
  (path_exists w (input args) = false →
     main w args = ([Print (MsgInputNotFound (input args))], Exit 1) ∧
     exit_status (main w args).2 = Some 1 ∧
     Forall (λ e, touches_disk e = false) (main w args).1) ∧
  (∀ content,
     path_exists w (input args) = true →
     read_file w (input args) = Some content →
     scan content = Some [] →
     main w args = ([ReadFile (input args); Print MsgNoDTBs], Exit 0) ∧
     exit_status (main w args).2 = Some 0 ∧
     Forall (λ e, touches_disk e = false) (main w args).1).
Proof.
  split.
  - intros Hex. assert (main w args
      = ([Print (MsgInputNotFound (input args))], Exit 1)) as ->.
    { unfold main. by rewrite Hex. }
    split_and!; [done..|]. by repeat constructor.
  - intros content Hex Hread Hscan.
    rewrite (main_no_marker w args content Hex Hread)
      by (by rewrite <-(scan_inv _ _ Hscan)).
    split_and!; [done..|]. by repeat constructor.
Qed.

Lemma missing_input_fatal_no_marker_clean_witness :
  main world_missing_input sample_args
  = ([Print (MsgInputNotFound "boot.img")], Exit 1) ∧
  main world_no_marker sample_args
  = ([ReadFile "boot.img"; Print MsgNoDTBs], Exit 0).
Proof.
  split.
  - apply (proj1 (missing_input_fatal_no_marker_clean world_missing_input
                    sample_args) eq_refl).
  - apply (proj2 (missing_input_fatal_no_marker_clean world_no_marker
                    sample_args) [x00; xd0; x0d; xfe] eq_refl eq_refl eq_refl).
Defined.


Lemma sample_world_disk_ok : disk_ok sample_world.
Proof. by split_and!. Qed.

(** C6.  A region whose decode failed is named [unknown_NN.dtb] from its own
    index, written with at least two digits.  The registry is neither read
    nor changed: the name is the same for every registry, and in a whole
    pass it is the same whatever the other regions decoded to. *)
Theorem fallback_name_by_index (w : World) (args : Args)
    (content : list byte) (positions : list Z) (i : nat)
    (used_names : gmap string nat) :
  decode_at w args content positions i = None →
  let r := region_body w args content positions i used_names in
  let name := "unknown_" +:+ fmt_02d i +:+ ".dtb" in
  final_name_of used_names i (decode_at w args content positions i)
  = (used_names, name) ∧
  (write_ok w (temp_path args i) = true →
     renamed r.1 = [(temp_path args i, path_join (out_dir args) name)]) ∧
  (write_ok w (temp_path args i) = true →
     rename_ok w (temp_path args i) (path_join (out_dir args) name) = true →
     r.2 = Ret used_names) ∧
  (∀ used k news j,
     news !! j = Some None →
     names_from used k news !! j
     = Some ("unknown_" +:+ fmt_02d (k + j) +:+ ".dtb") ∧
     registry_after used k (take (S j) news)
     = registry_after used k (take j news)) ∧
  fallback_name 3 = "unknown_03.dtb".
Proof.
  intros Hnone r name. subst r name.
  destruct (region_body_shape w args content positions i used_names)
    as (_ & Ho & Hr).
  rewrite Hnone in *. cbn [final_name_of truthy fst snd] in *.
  split_and!; [done| | | |done].
  - intros Hw. by rewrite Hw in Hr.
  - intros Hw Hrn. rewrite Hw in Ho. unfold fallback_name in Ho.
    by rewrite Hrn in Ho.
  - intros used k news j Hj. split.
    + by rewrite names_from_lookup, Hj.
    + by rewrite (take_S_r _ _ _ Hj), registry_after_snoc.
Qed.

Lemma fallback_name_by_index_witness :
  decode_at sample_world sample_args sample_image [1; 7; 11] 1 = None ∧
  final_name_of {[ "zuma-b0-ipop.dtb" := 4%nat ]} 1 None
  = ({[ "zuma-b0-ipop.dtb" := 4%nat ]}, "unknown_01.dtb").
Proof.
  split; [reflexivity|].
  apply (fallback_name_by_index sample_world sample_args sample_image
           [1; 7; 11] 1 {[ "zuma-b0-ipop.dtb" := 4%nat ]} eq_refl).
Defined.

(** C8, as the specification has it, fails: when the first of three
    temporary files cannot be written, the run stops with an uncaught
    exception after that one call of [dump_file]; the second and third
    regions are never attempted. *)
Lemma write_failure_continues_counterexample :
  scan sample_image = Some [1; 7; 11] ∧
  length (regions sample_image [1; 7; 11]) = 3%nat ∧
  length (dumped (main world_unwritable sample_args).1) = 1%nat ∧
  main world_unwritable sample_args
  = ([ReadFile "boot.img"; Print (MsgFound 3); MakeDirs "out";
      DumpFile "out/temp_00.dtb" [xd0; x0d; xfe; xed; x01; x02]],
     Raise).
Proof. split_and!; reflexivity. Qed.

Lemma length_names_from (news : list (option string))
    (used_names : gmap string nat) (i : nat) :
  length (names_from used_names i news) = length news.
Proof.
  revert used_names i. induction news as [|new_name news IH];
    intros used_names i; simpl; [done|].
  destruct (final_name_of used_names i new_name). simpl. by rewrite IH.
Qed.

Lemma zip_with_destinations {A B C} (f : A → B) (g : C → string)
    (idx : list A) (names : list C) :
  length idx = length names →
  (zip_with (λ i name, (f i, g name)) idx names).*2 = g <$> names.
Proof.
  revert names. induction idx as [|i idx IH]; intros [|name names] Hlen;
    simpl in *; [done..|]. rewrite IH; [done|lia].
Qed.

Lemma resolve_name_canonical (used_names : gmap string nat)
    (arg1 arg2 arg3 : string) :
  let new_name := canonical_name arg1 arg2 arg3 in
  let count := uses used_names new_name in
  (resolve_name used_names new_name).1 !! new_name = Some count ∧
  (count = O → (resolve_name used_names new_name).2 = new_name) ∧
  (count ≠ O → ends_in_slash_dots arg3 = false →
     (resolve_name used_names new_name).2
     = stem arg1 arg2 arg3 +:+ "_" +:+ str_int count +:+ ".dtb") ∧
  (count ≠ O → ends_in_slash_dots arg3 = true →
     (resolve_name used_names new_name).2
     = new_name +:+ "_" +:+ str_int count).
Proof.
  cbn zeta. unfold resolve_name, uses.
  destruct (used_names !! canonical_name arg1 arg2 arg3) as [c|]; simpl.
  - rewrite splitext_canonical.
    destruct (ends_in_slash_dots arg3); simpl; rewrite lookup_insert_eq;
      split_and!; try done.
    intros _ _. by rewrite append_nil_r.
  - rewrite lookup_insert_eq. by split_and!.
Qed.

(** C5, as the code has it.  In the naming pass of a run, which starts from
    the empty registry, a region that decoded to the canonical name
    [arg1-arg2-arg3.dtb] keeps that name when no earlier region decoded to
    it; when [count] earlier regions did, it is named
    [arg1-arg2-arg3_count.dtb], provided [arg3] does not end in a slash
    followed by nothing but dots; either way the registry then holds
    [count] for the canonical name.  These are the names the run renames
    the temporary files to. *)
Theorem collision_sequencing (news : list (option string)) (j : nat)
    (arg1 arg2 arg3 : string) :
  let new_name := canonical_name arg1 arg2 arg3 in
  let count := occurrences new_name (take j news) in
  news !! j = Some (Some new_name) →
  (count = O → names_from ∅ 0 news !! j = Some new_name) ∧
  (count ≠ O → ends_in_slash_dots arg3 = false →
     names_from ∅ 0 news !! j
     = Some (stem arg1 arg2 arg3 +:+ "_" +:+ str_int count +:+ ".dtb")) ∧
  registry_after ∅ 0 (take (S j) news) !! new_name = Some count ∧
  (∀ w args content positions,
     disk_ok w →
     path_exists w (input args) = true →
     read_file w (input args) = Some content →
     scan content = Some positions →
     positions ≠ [] →
     news = decode_at w args content positions <$> seq 0 (length positions) →
     (renamed (main w args).1).*2
     = path_join (out_dir args) <$> names_from ∅ 0 news).
Proof.
  intros new_name count Hj.
  pose proof (canonical_name_nonempty arg1 arg2 arg3) as Hne.
  fold new_name in Hne.
  pose proof (resolve_name_canonical
                (registry_after ∅ 0 (take j news)) arg1 arg2 arg3) as Hres.
  cbn zeta in Hres. fold new_name in Hres.
  rewrite uses_registry_after in Hres by done.
  unfold uses in Hres at 1 2 3 4. rewrite lookup_empty in Hres.
  cbn [from_option Nat.add] in Hres. fold count in Hres.
  destruct Hres as (Hreg & Hfirst & Hnext & _).
  rewrite names_from_lookup, Hj, (take_S_r _ _ _ Hj), registry_after_snoc.
  cbn [fmap option_fmap option_map]. unfold final_name_of.
  rewrite truthy_Some by done.
  split_and!.
  - intros H0. by rewrite Hfirst.
  - intros H0 Hends. by rewrite Hnext.
  - done.
  - intros w args content positions Hdisk Hex Hread Hscan Hpos ->.
    destruct (main_disk_ok w args content positions) as (_ & _ & Hr);
      [done..|].
    rewrite Hr. apply zip_with_destinations.
    by rewrite length_names_from, length_fmap.
Qed.

Lemma collision_sequencing_witness :
  names_from ∅ 0
    [Some "zuma-b0-ipop.dtb"; None; Some "zuma-b0-ipop.dtb";
     Some "zuma-b0-ipop.dtb"]
  = ["zuma-b0-ipop.dtb"; "unknown_01.dtb"; "zuma-b0-ipop_1.dtb";
     "zuma-b0-ipop_2.dtb"] ∧
  names_from ∅ 0
    [Some "zuma-b0-ipop.dtb"; None; Some "zuma-b0-ipop.dtb";
     Some "zuma-b0-ipop.dtb"] !! 3%nat
  = Some "zuma-b0-ipop_2.dtb".
Proof.
  split; [reflexivity|].
  apply (proj1 (proj2 (collision_sequencing
           [Some "zuma-b0-ipop.dtb"; None; Some "zuma-b0-ipop.dtb";
            Some "zuma-b0-ipop.dtb"] 3 "zuma" "b0" "ipop" eq_refl)));
    [discriminate|reflexivity].
Defined.

(** C5, as the specification has it, fails: two regions whose description
    is [B0,x/] both decode to [zuma-b0-x/.dtb]; [os.path.splitext] finds no
    extension in that name, so the second region is named
    [zuma-b0-x/.dtb_1], with the count after [.dtb] and not before it. *)
Lemma collision_suffix_counterexample :
  name_of_dts slash_dts = Some (canonical_name "zuma" "b0" "x/") ∧
  names_from ∅ 0 [name_of_dts slash_dts; name_of_dts slash_dts]
  = ["zuma-b0-x/.dtb"; "zuma-b0-x/.dtb_1"] ∧
  stem "zuma" "b0" "x/" +:+ "_" +:+ str_int 1 +:+ ".dtb" = "zuma-b0-x/_1.dtb".
Proof. split_and!; reflexivity. Qed.

(** ** Metadata extractor *)

Lemma split_comma_unfold (s : string) :
  split comma s
  = before_comma s
    :: (if contains comma s then split comma (after_first_comma s) else []).
Proof.
  induction s as [|c s IH]; [done|]. simpl.
  destruct (decide (c = comma)); [done|]. by rewrite IH.
Qed.

Lemma before_comma_spec (s : string) :
  contains comma (before_comma s) = false ∧
  ∃ rest, s = before_comma s +:+ rest ∧
    (rest = EmptyString ∨ str_startswith rest comma = true).
Proof.
  induction s as [|c s (IH1 & rest & IH2 & IH3)]; simpl.
  - split; [done|]. exists EmptyString. by split; [|left].
  - destruct (decide (c = comma)) as [->|Hc]; simpl.
    + split; [done|]. exists (String comma s). by split; [|right].
    + rewrite decide_False by done. split; [done|]. exists rest.
      rewrite append_cons. by rewrite <-IH2.
Qed.

Lemma after_first_comma_spec (s : string) :
  contains comma s = true →
  s = before_comma s +:+ String comma (after_first_comma s).
Proof.
  induction s as [|c s IH]; simpl; [done|].
  destruct (decide (c = comma)) as [->|Hc]; [done|].
  intros H. rewrite append_cons. by rewrite <-IH.
Qed.

Lemma arg1_of_eq (dts_content : string) :
  arg1_of dts_content
  = Some match re_search_field "compatible" dts_content with
         | None => "unknown"
         | Some raw_comp =>
             if contains comma raw_comp
             then strip (before_comma (after_first_comma raw_comp))
             else strip raw_comp
         end.
Proof.
  unfold arg1_of.
  destruct (re_search_field "compatible" dts_content) as [raw_comp|]; [|done].
  destruct (contains comma raw_comp) eqn:Hc; [|done].
  rewrite split_comma_unfold, Hc. simpl.
  by rewrite split_comma_unfold.
Qed.

(** The decompiled text always yields a name: the index into the split
    compatible string is in range. *)
Lemma name_of_dts_is_Some (dts_content : string) :
  ∃ arg1, arg1_of dts_content = Some arg1 ∧
    name_of_dts dts_content
    = Some (canonical_name arg1 (arg23_of dts_content).1
              (arg23_of dts_content).2).
Proof.
  unfold name_of_dts. rewrite arg1_of_eq. eexists. split; [done|].
  simpl. by destruct (arg23_of dts_content).
Qed.

(** C3, as the code has it.  [arg1] comes from the first match of the
    compatible pattern: [unknown] when there is none; the whole value,
    trimmed, when the value has no comma; otherwise the second of the
    comma-separated parts of the value, trimmed, that is what stands between
    the first comma and the next one (or the end). *)
Theorem arg1_is_second_part (dts_content : string) :
  arg1_of dts_content
  = Some match re_search_field "compatible" dts_content with
         | None => "unknown"
         | Some raw_comp =>
             if contains comma raw_comp
             then strip (before_comma (after_first_comma raw_comp))
             else strip raw_comp
         end ∧
  (∀ v, re_search_field "compatible" dts_content = Some v
        ↔ ∃ pre post,
            dts_content = pre +:+ post ∧ field_at "compatible" post v ∧
            ∀ pre' post' v',
              dts_content = pre' +:+ post' →
              (String.length pre' < String.length pre)%nat →
              ¬ field_at "compatible" post' v') ∧
  (∀ s, contains comma (before_comma s) = false ∧
        ∃ rest, s = before_comma s +:+ rest ∧
          (rest = EmptyString ∨ str_startswith rest comma = true)) ∧
  (∀ s, contains comma s = true →
        s = before_comma s +:+ String comma (after_first_comma s)) ∧
  (∀ s, ∃ ws1 ws2, s = ws1 +:+ strip s +:+ ws2 ∧
        all_space ws1 = true ∧ all_space ws2 = true) ∧
  arg1_of sample_dts = Some "zuma" ∧
  arg1_of foo_dts = Some "unknown".
Proof.
  split_and!; [apply arg1_of_eq|intros v; apply re_search_field_Some
              |apply before_comma_spec|apply after_first_comma_spec
              |apply strip_shape|reflexivity..].
Qed.

(** C3, as the specification has it, fails: for the value [a,b,c] the part
    after the first comma is [b,c], and the code yields [b]. *)
Lemma arg1_after_first_comma_counterexample :
  re_search_field "compatible" abc_dts = Some "a,b,c" ∧
  strip (after_first_comma "a,b,c") = "b,c" ∧
  arg1_of abc_dts = Some "b".
Proof. split_and!; reflexivity. Qed.

Lemma arg1_is_second_part_witness :
  arg1_of abc_dts
  = Some (strip (before_comma (after_first_comma "a,b,c"))) ∧
  "a,b,c" = before_comma "a,b,c" +:+ String comma (after_first_comma "a,b,c").
Proof.
  split.
  - apply (proj1 (arg1_is_second_part abc_dts)).
  - apply (proj1 (proj2 (proj2 (proj2 (arg1_is_second_part EmptyString))))).
    reflexivity.
Defined.

Lemma isspace_lower_char (c : ascii) : isspace (lower_char c) = isspace c.
Proof. by destruct c as [[] [] [] [] [] [] [] []]. Qed.

Lemma lower_lstrip (s : string) : lower (lstrip s) = lstrip (lower s).
Proof.
  induction s as [|c s IH]; [done|]. simpl. rewrite isspace_lower_char.
  by destruct (isspace c).
Qed.

Lemma lower_rstrip (s : string) : lower (rstrip s) = rstrip (lower s).
Proof.
  induction s as [|c s IH]; [done|]. simpl. rewrite <-IH, isspace_lower_char.
  destruct (rstrip s); simpl; [|done]. by destruct (isspace c).
Qed.

Lemma lower_strip (s : string) : lower (strip s) = strip (lower s).
Proof. unfold strip. by rewrite lower_rstrip, lower_lstrip. Qed.

(** C4, as the code has it.  [arg2] and [arg3] come from the first match of
    the description pattern: both are [unk] when there is none.  Otherwise
    [arg2] is the first comma-separated part of the value, trimmed and
    lowercased, whatever it is, the empty string included; [arg3] is the
    second part, trimmed and lowercased, when the value has a comma, and
    [unk] when it has none.  Trimming and lowercasing commute. *)
Theorem description_parts (dts_content : string) :
  arg23_of dts_content
  = match re_search_field "description" dts_content with
    | None => ("unk", "unk")
    | Some raw_desc =>
        (lower (strip (before_comma raw_desc)),
         if contains comma raw_desc
         then lower (strip (before_comma (after_first_comma raw_desc)))
         else "unk")
    end ∧
  (∀ v, re_search_field "description" dts_content = Some v
        ↔ ∃ pre post,
            dts_content = pre +:+ post ∧ field_at "description" post v ∧
            ∀ pre' post' v',
              dts_content = pre' +:+ post' →
              (String.length pre' < String.length pre)%nat →
              ¬ field_at "description" post' v') ∧
  (∀ s, lower (strip s) = strip (lower s)) ∧
  arg23_of sample_dts = ("b0", "ipop") ∧
  arg23_of foo_dts = ("foo", "unk") ∧
  name_of_dts foo_dts = Some "unknown-foo-unk.dtb".
Proof.
  split_and!; [|intros v; apply re_search_field_Some|apply lower_strip
              |reflexivity..].
  unfold arg23_of.
  destruct (re_search_field "description" dts_content) as [raw_desc|]; [|done].
  rewrite split_comma_unfold.
  destruct (contains comma raw_desc); [|done].
  by rewrite split_comma_unfold.
Qed.

(** C4, as the specification has it, fails: for the empty description the
    first part is empty, and the code yields the empty string for [arg2],
    not [unk]; the name has nothing between its two hyphens. *)
Lemma empty_description_counterexample :
  re_search_field "description" empty_description_dts = Some EmptyString ∧
  before_comma EmptyString = EmptyString ∧
  arg23_of empty_description_dts = (EmptyString, "unk") ∧
  name_of_dts empty_description_dts = Some "unknown--unk.dtb".
Proof. split_and!; reflexivity. Qed.

Lemma description_parts_witness :
  arg23_of sample_dts
  = (lower (strip (before_comma "B0,IPOP")),
     lower (strip (before_comma (after_first_comma "B0,IPOP")))) ∧
  lower (strip " B0 ") = strip (lower " B0 ").
Proof.
  split.
  - apply (proj1 (description_parts sample_dts)).
  - apply (proj1 (proj2 (proj2 (description_parts EmptyString)))).
Defined.

(** ** Termination and a whole run *)

Lemma for_each_outcome (w : World) (args : Args) (content : list byte)
    (positions : list Z) (idx : list nat) (used_names : gmap string nat) :
  let r := for_each (region_body w args content positions) idx used_names in
  (∃ used', r.2 = Ret used') ∨ r.2 = Raise.
Proof.
  revert used_names. induction idx as [|i idx IH]; intros used_names.
  - left. by eexists.
  - cbn zeta. rewrite for_each_cons, bind_outcome.
    destruct (region_body_shape w args content positions i used_names)
      as (_ & -> & _).
    destruct (write_ok w _ && rename_ok w _ _); [apply IH|by right].
Qed.

(** The run always ends: the scanner never runs out of fuel, and the loop
    body ends by returning or by raising. *)
Lemma main_terminates (w : World) (args : Args) :
  ∃ status, exit_status (main w args).2 = Some status.
Proof.
  unfold main. destruct (path_exists w (input args)); cbn [negb].
  - io_steps. destruct (read_file w (input args)) as [content|];
      [|by eexists].
    rewrite scan_marker_offsets.
    destruct (marker_offsets content) as [|p ps]; [by eexists|].
    io_steps. unfold call. cbn [fst snd].
    destruct (makedirs_ok w (out_dir args)); [|by eexists].
    io_steps.
    destruct (for_each_outcome w args content (p :: ps)
                (seq 0 (length (p :: ps))) ∅) as [[used' ->]| ->];
      by eexists.
  - io_steps. by eexists.
Qed.

(** The scenario of the specification, with a third region: the first blob
    decompiles, the decompiler cannot be launched for the second and exits
    with status 1 for the third. *)
Example main_sample_run :
  main sample_world sample_args
  = ([ReadFile "boot.img"; Print (MsgFound 3); MakeDirs "out";
      DumpFile "out/temp_00.dtb" [xd0; x0d; xfe; xed; x01; x02];
      RunDtc "out/temp_00.dtb";
      Rename "out/temp_00.dtb" "out/zuma-b0-ipop.dtb";
      Print (MsgExtracted 0 "zuma-b0-ipop.dtb");
      DumpFile "out/temp_01.dtb" [xd0; x0d; xfe; xed];
      RunDtc "out/temp_01.dtb";
      Print (MsgParseError "out/temp_01.dtb");
      Rename "out/temp_01.dtb" "out/unknown_01.dtb";
      Print (MsgParsingFailed 1 "unknown_01.dtb");
      DumpFile "out/temp_02.dtb" [xd0; x0d; xfe; xed; x07];
      RunDtc "out/temp_02.dtb";
      Rename "out/temp_02.dtb" "out/unknown_02.dtb";
      Print (MsgParsingFailed 2 "unknown_02.dtb");
      Print (MsgDone "out")],
     Ret ()).
Proof. reflexivity. Qed.

(** * Further properties of [extractdtb.py] *)

(** ** Decimal names *)

Lemma is_digit_pretty_N_char (x : N) : is_digit (pretty_N_char x) = true.
Proof. unfold pretty_N_char. by repeat case_match. Qed.

Lemma contains_pretty_N_go (c : ascii) (x : N) (s : string) :
  is_digit c = false → contains c (pretty_N_go x s) = contains c s.
Proof.
  intros Hc. revert s. induction (N.lt_wf_0 x) as [x _ IH]; intros s.
  destruct (decide (x = 0)%N) as [->|Hx]; [done|].
  rewrite pretty_N_go_step by lia. rewrite IH by (apply N.div_lt; lia).
  simpl. rewrite decide_False; [done|]. intros E.
  pose proof (is_digit_pretty_N_char (x `mod` 10)%N). congruence.
Qed.

Lemma contains_str_int (c : ascii) (n : nat) :
  is_digit c = false → contains c (str_int n) = false.
Proof.
  intros Hc. unfold str_int, pretty, pretty_nat, pretty, pretty_N.
  case_decide; [by simpl; rewrite decide_False by (by intros <-)|].
  by rewrite contains_pretty_N_go.
Qed.

Lemma contains_fmt_02d (c : ascii) (i : nat) :
  is_digit c = false → contains c (fmt_02d i) = false.
Proof.
  intros Hc. unfold fmt_02d. destruct (i <? 10)%nat.
  - rewrite contains_append, contains_str_int by done. simpl.
    rewrite decide_False; [done|]. by intros <-.
  - by apply contains_str_int.
Qed.

Lemma pretty_N_go_head (x : N) (s : string) :
  (0 < x)%N → ∃ c rest, pretty_N_go x s = String c rest ∧ c ≠ "0"%char.
Proof.
  revert s. induction (N.lt_wf_0 x) as [x _ IH]; intros s Hx.
  rewrite pretty_N_go_step by done.
  destruct (decide (x `div` 10 = 0)%N) as [E|E].
  - rewrite E, pretty_N_go_0. eexists _, _. split; [done|].
    assert (x < 10)%N by (by apply N.div_small_iff in E).
    rewrite N.mod_small by done.
    assert (x = 1 ∨ x = 2 ∨ x = 3 ∨ x = 4 ∨ x = 5 ∨ x = 6 ∨ x = 7 ∨ x = 8
            ∨ x = 9)%N as Hcases by lia.
    by destruct Hcases as [->|[->|[->|[->|[->|[->|[->|[->| ->]]]]]]]].
  - apply IH; [apply N.div_lt; lia|by apply N.neq_0_lt_0].
Qed.

Lemma str_int_head (n : nat) :
  (0 < n)%nat → ∃ c rest, str_int n = String c rest ∧ c ≠ "0"%char.
Proof.
  intros Hn. unfold str_int, pretty, pretty_nat, pretty, pretty_N.
  rewrite decide_False by lia. apply pretty_N_go_head. lia.
Qed.

Lemma fmt_02d_inj (i j : nat) : fmt_02d i = fmt_02d j → i = j.
Proof.
  unfold fmt_02d.
  destruct (Nat.ltb_spec i 10), (Nat.ltb_spec j 10); rewrite ?append_cons,
    ?append_nil_l.
  - intros [= E]. by apply (inj pretty).
  - destruct (str_int_head j) as (c & rest & -> & Hc); [lia|].
    intros [= <- _]. done.
  - destruct (str_int_head i) as (c & rest & -> & Hc); [lia|].
    intros [= -> _]. done.
  - apply (inj pretty).
Qed.

(** ** What [get_readable_name] returns *)

Lemma endswith_append (s suffix : string) : endswith (s +:+ suffix) suffix = true.
Proof.
  induction s as [|c s IH].
  - rewrite append_nil_l.
    destruct suffix; simpl; by rewrite ?bool_decide_eq_true_2 by done.
  - rewrite append_cons. simpl. by rewrite IH, orb_true_r.
Qed.

(** X1.  [get_readable_name] returns a name exactly when [dtc] exits with
    status 0.  Parsing the text cannot raise: the index into the split
    compatible value is taken only when the value has a comma, so it is in
    range.  The name returned is the canonical name of the three tokens; it
    ends in [.dtb] and is not empty, so the test [if new_name:] of [main]
    fails for [None] only. *)
Theorem decode_succeeds_iff_dtc_exits_zero (w : World) (dtb_path : string)
    (content : list byte) :
  (∀ stdout,
     run_dtc w dtb_path content = Some (0, stdout) →
     ∃ arg1,
       arg1_of stdout = Some arg1 ∧
       get_readable_name w dtb_path content
       = ([RunDtc dtb_path],
          Ret (Some (canonical_name arg1 (arg23_of stdout).1
                       (arg23_of stdout).2)))) ∧
  (∀ t name,
     get_readable_name w dtb_path content = (t, Ret (Some name)) →
     (∃ stdout, run_dtc w dtb_path content = Some (0, stdout)) ∧
     endswith name ".dtb" = true ∧
     truthy (Some name) = Some name).
Proof.
  split.
  - intros stdout Hrun.
    destruct (name_of_dts_is_Some stdout) as (arg1 & Harg1 & Hname).
    exists arg1. split; [done|]. unfold get_readable_name.
    rewrite Hrun, bool_decide_eq_false_2 by (by intros []).
    by rewrite Hname.
  - intros t name. unfold get_readable_name.
    destruct (run_dtc w dtb_path content) as [[returncode stdout]|];
      [|by intros [= _ ?]].
    case_bool_decide as Hrc; [by intros [= _ ?]|].
    destruct (name_of_dts_is_Some stdout) as (arg1 & _ & ->).
    intros [= _ <-]. split_and!.
    + exists stdout. f_equal. f_equal.
      destruct (decide (returncode = 0)); [done|]. by destruct Hrc.
    + rewrite canonical_name_stem. apply endswith_append.
    + apply truthy_Some, canonical_name_nonempty.
Qed.

Lemma decode_succeeds_iff_dtc_exits_zero_witness :
  get_readable_name sample_world "out/temp_00.dtb"
    [xd0; x0d; xfe; xed; x01; x02]
  = ([RunDtc "out/temp_00.dtb"], Ret (Some "zuma-b0-ipop.dtb")).
Proof.
  destruct (proj1 (decode_succeeds_iff_dtc_exits_zero sample_world
                     "out/temp_00.dtb" [xd0; x0d; xfe; xed; x01; x02])
              sample_dts eq_refl) as (arg1 & Harg1 & Hname).
  injection Harg1 as <-. exact Hname.
Defined.

(** ** Names that cannot clash *)

Lemma append_cancel_l (s t u : string) : s +:+ t = s +:+ u → t = u.
Proof.
  induction s as [|a s IH]; [done|]. rewrite !append_cons. intros [= H].
  by apply IH.
Qed.

Lemma append_cancel_r (s t u : string) : s +:+ u = t +:+ u → s = t.
Proof.
  revert t. induction s as [|a s IH]; intros [|b t] H.
  - done.
  - apply (f_equal String.length) in H.
    rewrite append_nil_l, length_append in H. simpl in H. lia.
  - apply (f_equal String.length) in H.
    rewrite append_nil_l, length_append in H. simpl in H. lia.
  - rewrite !append_cons in H. injection H as -> H. f_equal. by apply IH.
Qed.

Lemma fallback_name_inj (i j : nat) : fallback_name i = fallback_name j → i = j.
Proof.
  unfold fallback_name. intros H%append_cancel_l%append_cancel_r.
  by apply fmt_02d_inj.
Qed.

Lemma temp_filename_inj (i j : nat) : temp_filename i = temp_filename j → i = j.
Proof.
  unfold temp_filename. intros H%append_cancel_l%append_cancel_r.
  by apply fmt_02d_inj.
Qed.

Lemma fallback_name_no_hyphen (i : nat) : contains hyphen (fallback_name i) = false.
Proof.
  unfold fallback_name. by rewrite !contains_append, contains_fmt_02d.
Qed.

Lemma canonical_name_hyphen (arg1 arg2 arg3 : string) :
  contains hyphen (canonical_name arg1 arg2 arg3) = true.
Proof.
  unfold canonical_name. rewrite !contains_append. simpl.
  by rewrite orb_true_r.
Qed.

Lemma str_take_drop (n : nat) (p : string) : str_take n p +:+ str_drop n p = p.
Proof.
  revert p. induction n as [|n IH]; intros [|c p]; simpl; try done.
  by rewrite append_cons, IH.
Qed.

(** The two parts [splitext] returns are the path cut in two. *)
Lemma splitext_concat (p : string) : (splitext p).1 +:+ (splitext p).2 = p.
Proof.
  unfold splitext. case_match; simpl.
  - apply str_take_drop.
  - apply append_nil_r.
Qed.

Lemma resolve_name_hyphen (used_names : gmap string nat) (n : string) :
  contains hyphen n = true →
  contains hyphen (resolve_name used_names n).2 = true.
Proof.
  intros Hn. unfold resolve_name.
  destruct (used_names !! n); [|done].
  pose proof (splitext_concat n) as Hcat.
  destruct (splitext n) as [base ext]. simpl in *.
  rewrite <-Hcat, contains_append in Hn.
  rewrite !contains_append.
  destruct (contains hyphen base); [done|]. simpl in *. rewrite Hn.
  by rewrite !orb_true_r.
Qed.

Lemma decode_at_hyphen (w : World) (args : Args) (content : list byte)
    (positions : list Z) (j : nat) (n : string) :
  decode_at w args content positions j = Some n →
  contains hyphen n = true ∧ n ≠ EmptyString.
Proof.
  unfold decode_at, returned, get_readable_name.
  destruct (run_dtc w _ _) as [[returncode stdout]|]; [|done].
  case_bool_decide; [done|].
  destruct (name_of_dts_is_Some stdout) as (arg1 & _ & ->). simpl.
  intros [= <-]. split; [apply canonical_name_hyphen|].
  apply canonical_name_nonempty.
Qed.

(** X2.  In the naming pass of a run, a region whose decode failed shares
    its final name with no other region: fallback names differ from one
    index to the next, and every name that comes from metadata, suffixed or
    not, has a hyphen, which no fallback name has. *)
Theorem failed_region_name_is_its_own (w : World) (args : Args)
    (content : list byte) (positions : list Z) (i j : nat) (a b : string) :
  let news :=
    decode_at w args content positions <$> seq 0 (length positions) in
  decode_at w args content positions i = None →
  names_from ∅ 0 news !! i = Some a →
  names_from ∅ 0 news !! j = Some b →
  i ≠ j →
  a ≠ b.
Proof.
  intros news Hfail Ha Hb Hij. subst news.
  rewrite names_from_lookup, list_lookup_fmap in Ha, Hb.
  destruct (seq 0 (length positions) !! i) as [i'|] eqn:Hi; [|done].
  destruct (seq 0 (length positions) !! j) as [j'|] eqn:Hj; [|done].
  apply lookup_seq in Hi as [-> _]. apply lookup_seq in Hj as [-> _].
  cbn [fmap option_fmap option_map Nat.add] in Ha, Hb. rewrite Hfail in Ha.
  injection Ha as <-. injection Hb as <-. cbn [final_name_of truthy snd].
  destruct (decode_at w args content positions j) as [n|] eqn:Hn.
  - apply decode_at_hyphen in Hn as [Hn Hne]. unfold final_name_of.
    rewrite truthy_Some by done. intros E.
    pose proof (resolve_name_hyphen
      (registry_after ∅ 0
         (take j (decode_at w args content positions
                    <$> seq 0 (length positions)))) n Hn) as Hh.
    simpl in E. rewrite <-E, fallback_name_no_hyphen in Hh. done.
  - intros E%fallback_name_inj. done.
Qed.

Lemma failed_region_name_is_its_own_witness :
  "unknown_01.dtb" ≠ "zuma-b0-ipop.dtb".
Proof.
  apply (failed_region_name_is_its_own sample_world sample_args sample_image
           [1; 7; 11] 1 0); [reflexivity..|discriminate].
Defined.

(** ** Temporary files *)

Lemma path_join_inj (a b c : string) :
  str_startswith b slash = false → str_startswith c slash = false →
  path_join a b = path_join a c → b = c.
Proof.
  unfold path_join. intros -> ->.
  destruct (bool_decide (a = EmptyString) || str_endswith a slash).
  - apply append_cancel_l.
  - intros H%append_cancel_l. by apply append_cancel_l in H.
Qed.

Lemma temp_path_inj (args : Args) (i j : nat) :
  temp_path args i = temp_path args j → i = j.
Proof.
  unfold temp_path. intros H%path_join_inj; [|done..].
  by apply temp_filename_inj.
Qed.

Lemma for_each_dumped_prefix (w : World) (args : Args) (content : list byte)
    (positions : list Z) (m k : nat) (used_names : gmap string nat) :
  ∃ n, (n ≤ m)%nat ∧
    dumped (for_each (region_body w args content positions) (seq k m)
              used_names).1
    = (λ j, (temp_path args j, chunk_at content positions j)) <$> seq k n.
Proof.
  revert k used_names. induction m as [|m IH]; intros k used_names.
  - by exists O.
  - change (seq k (S m)) with (k :: seq (S k) m).
    rewrite for_each_cons, bind_trace.
    destruct (region_body_shape w args content positions k used_names)
      as (Hd & Ho & _).
    rewrite dumped_app, Hd, Ho.
    destruct (write_ok w _ && rename_ok w _ _).
    + destruct (IH (S k)
        (final_name_of used_names k
           (decode_at w args content positions k)).1) as (n & Hn & ->).
      exists (S n). split; [lia|done].
    + exists 1%nat. split; [lia|]. by rewrite app_nil_r.
Qed.

Lemma main_dumped_prefix (w : World) (args : Args) :
  ∃ content positions n,
    (n ≤ length positions)%nat ∧
    dumped (main w args).1
    = (λ j, (temp_path args j, chunk_at content positions j)) <$> seq 0 n.
Proof.
  unfold main. destruct (path_exists w (input args)); cbn [negb];
    [|by exists [], [], O].
  destruct (read_file w (input args)) as [content|]; [|by exists [], [], O].
  rewrite scan_marker_offsets.
  destruct (marker_offsets content) as [|p ps]; [by exists [], [], O|].
  unfold call. io_steps.
  destruct (makedirs_ok w (out_dir args)); [|by exists [], [], O].
  destruct (for_each_dumped_prefix w args content (p :: ps)
              (length (p :: ps)) 0 ∅) as (n & Hn & Hd).
  exists content, (p :: ps), n. split; [done|].
  rewrite !dumped_app, Hd. cbn [dumped omap list_omap app].
  destruct (for_each _ _ _).2; by rewrite ?app_nil_r.
Qed.

(** X3.  The temporary files of two regions have different paths, whatever
    the output directory and however many regions there are, so in every run
    the paths handed to [dump_file] are pairwise distinct: dumping a region
    never overwrites the temporary file of another. *)
Theorem temp_paths_never_clash (w : World) (args : Args) :
  (∀ i j, i ≠ j → temp_path args i ≠ temp_path args j) ∧
  NoDup (dumped (main w args).1).*1.
Proof.
  split.
  - intros i j Hij E. by apply Hij, (temp_path_inj args).
  - destruct (main_dumped_prefix w args) as (content & positions & n & _ & ->).
    rewrite <-list_fmap_compose.
    apply NoDup_fmap_2_strong; [|apply NoDup_seq].
    intros i j _ _ E. by apply (temp_path_inj args).
Qed.

Lemma temp_paths_never_clash_witness :
  temp_path sample_args 7 ≠ temp_path sample_args 107.
Proof.
  apply (proj1 (temp_paths_never_clash sample_world sample_args)).
  discriminate.
Defined.

(** ** Failures of the disk *)

Lemma for_each_step_fails (w : World) (args : Args) (content : list byte)
    (positions : list Z) (m k i : nat) (used_names : gmap string nat) :
  (k ≤ i < k + m)%nat →
  let registry :=
    registry_after used_names k
      (decode_at w args content positions <$> seq k (i - k)) in
  let name :=
    (final_name_of registry i (decode_at w args content positions i)).2 in
  write_ok w (temp_path args i)
  && rename_ok w (temp_path args i) (path_join (out_dir args) name) = false →
  let r := for_each (region_body w args content positions) (seq k m)
             used_names in
  r.2 = Raise ∧
  ∃ n, (n ≤ S (i - k))%nat ∧
    dumped r.1
    = (λ j, (temp_path args j, chunk_at content positions j)) <$> seq k n.
Proof.
  revert k used_names.
  induction m as [|m IH]; intros k used_names Hi; [lia|].
  cbn zeta. intros Hfail.
  change (seq k (S m)) with (k :: seq (S k) m).
  rewrite for_each_cons, bind_trace, bind_outcome.
  destruct (region_body_shape w args content positions k used_names)
    as (Hd & Ho & _).
  rewrite dumped_app, Hd, Ho.
  destruct (decide (i = k)) as [->|Hik].
  - rewrite Nat.sub_diag in Hfail. cbn [seq fmap list_fmap registry_after]
      in Hfail. rewrite Hfail.
    split; [done|]. exists 1%nat. split; [lia|]. by rewrite app_nil_r.
  - destruct (write_ok w (temp_path args k) && rename_ok w _ _).
    + destruct (IH (S k)
        (final_name_of used_names k
           (decode_at w args content positions k)).1) as (IHo & n & Hn & IHd).
      * lia.
      * replace (i - k)%nat with (S (i - S k)) in Hfail by lia. exact Hfail.
      * split; [done|]. exists (S n). split; [lia|]. by rewrite IHd.
    + split; [done|]. exists 1%nat. split; [lia|]. by rewrite app_nil_r.
Qed.

(** X4.  A failing [os.rename] is not caught either: when the rename of
    region [i] to its final name raises, the run ends there with an uncaught
    exception and exit status 1, and no region after [i] is dumped. *)
Theorem rename_failure_aborts_run (w : World) (args : Args)
    (content : list byte) (positions : list Z) (i : nat) :
  path_exists w (input args) = true →
  read_file w (input args) = Some content →
  scan content = Some positions →
  (i < length positions)%nat →
  rename_ok w (temp_path args i)
    (path_join (out_dir args)
       (final_name_of
          (registry_after ∅ 0
             (decode_at w args content positions <$> seq 0 i))
          i (decode_at w args content positions i)).2) = false →
  (main w args).2 = Raise ∧
  exit_status (main w args).2 = Some 1 ∧
  ∃ n, (n ≤ S i)%nat ∧
    dumped (main w args).1
    = (λ j, (temp_path args j, chunk_at content positions j)) <$> seq 0 n.
Proof.
  intros Hex Hread Hscan Hi Hfail.
  assert ((main w args).2 = Raise ∧
    ∃ n, (n ≤ S i)%nat ∧
      dumped (main w args).1
      = (λ j, (temp_path args j, chunk_at content positions j)) <$> seq 0 n)
    as [Ho Hd]; [|by rewrite Ho].
  unfold main. rewrite Hex, Hread, Hscan. cbn [negb].
  destruct positions as [|p ps]; [simpl in Hi; lia|].
  destruct (for_each_step_fails w args content (p :: ps) (length (p :: ps))
              0 i ∅) as (Ho & n & Hn & Hd); [lia| |].
  { rewrite Nat.sub_0_r, Hfail. apply andb_false_r. }
  unfold call. io_steps.
  destruct (makedirs_ok w (out_dir args)).
  - rewrite Ho. split; [done|]. exists n. split; [lia|].
    rewrite !dumped_app, Hd. cbn [dumped omap list_omap app].
    by rewrite app_nil_r.
  - split; [done|]. exists O. split; [lia|done].
Qed.

Lemma rename_failure_aborts_run_witness :
  (main world_unrenamable sample_args).2 = Raise ∧
  length (dumped (main world_unrenamable sample_args).1) = 2%nat.
Proof.
  split; [|reflexivity].
  apply (rename_failure_aborts_run world_unrenamable sample_args sample_image
           [1; 7; 11] 1); [reflexivity..|simpl; lia|reflexivity].
Defined.

(** X5.  An input that exists and cannot be read, and an output directory
    that cannot be made, both end the run with an uncaught exception before
    any region is dumped, decoded or renamed. *)
Theorem early_failures_write_nothing (w : World) (args : Args) :
  (path_exists w (input args) = true →
   read_file w (input args) = None →
   main w args = ([ReadFile (input args)], Raise)) ∧
  (∀ content positions,
     path_exists w (input args) = true →
     read_file w (input args) = Some content →
     scan content = Some positions →
     positions ≠ [] →
     makedirs_ok w (out_dir args) = false →
     main w args
     = ([ReadFile (input args); Print (MsgFound (length positions));
         MakeDirs (out_dir args)], Raise)).
Proof.
  split.
  - intros Hex Hread. unfold main. by rewrite Hex, Hread.
  - intros content positions Hex Hread Hscan Hne Hmk. unfold main.
    rewrite Hex, Hread, Hscan. destruct positions as [|p ps]; [done|].
    unfold call. by rewrite Hmk.
Qed.

Lemma early_failures_write_nothing_witness :
  main world_unreadable sample_args = ([ReadFile "boot.img"], Raise) ∧
  main world_no_out_dir sample_args
  = ([ReadFile "boot.img"; Print (MsgFound 3); MakeDirs "out"], Raise).
Proof.
  split.
  - apply (proj1 (early_failures_write_nothing world_unreadable sample_args));
      reflexivity.
  - apply (proj2 (early_failures_write_nothing world_no_out_dir sample_args)
             sample_image [1; 7; 11]); [reflexivity..|discriminate|reflexivity].
Defined.

(** ** The registry *)

Lemma registry_after_empty_name (news : list (option string))
    (used_names : gmap string nat) (i : nat) :
  registry_after used_names i news !! EmptyString = used_names !! EmptyString.
Proof.
  revert used_names i. induction news as [|new_name news IH];
    intros used_names i; [done|]. simpl. rewrite IH. unfold final_name_of.
  destruct (truthy new_name) as [n|] eqn:Ht; [|done].
  apply truthy_Some_inv in Ht as [_ Hn]. unfold resolve_name.
  destruct (used_names !! n); [destruct (splitext n)|]; simpl;
    by rewrite lookup_insert_ne.
Qed.

(** X7.  After the naming pass of a run the registry holds, for every name,
    one less than the number of regions that decoded to it, and holds
    nothing for a name no region decoded to; regions whose decode failed
    leave no trace in it. *)
Theorem registry_counts_decoded_names (news : list (option string))
    (name : string) :
  registry_after ∅ 0 news !! name
  = if decide (occurrences name news = O ∨ name = EmptyString) then None
    else Some (occurrences name news - 1)%nat.
Proof.
  destruct (decide (name = EmptyString)) as [->|Hne].
  - rewrite registry_after_empty_name, lookup_empty.
    by rewrite decide_True by by right.
  - pose proof (uses_registry_after news ∅ 0 name Hne) as Hu.
    unfold uses in Hu. rewrite lookup_empty in Hu. simpl in Hu.
    destruct (registry_after ∅ 0 news !! name) as [c|]; simpl in Hu.
    + rewrite decide_False by (intros [?|?]; [lia|done]). f_equal. lia.
    + rewrite decide_True; [done|]. left. lia.
Qed.

(** ** Dumps and renames *)

Lemma zip_with_sources {A B C D} (f : A → B) (g : A → C → D)
    (idx : list A) (names : list C) :
  length idx = length names →
  (zip_with (λ i name, (f i, g i name)) idx names).*1 = f <$> idx.
Proof.
  revert names. induction idx as [|i idx IH]; intros [|name names] Hlen;
    simpl in *; [done..|]. rewrite IH; [done|lia].
Qed.

(** * Properties of [make_prebuild.py] *)

(** ** The two searches of the last step *)

Lemma path_join_nonempty (a b : string) :
  b ≠ EmptyString → path_join a b ≠ EmptyString.
Proof.
  intros Hb. unfold path_join. destruct (str_startswith b slash); [done|].
  destruct (bool_decide (a = EmptyString) || str_endswith a slash);
    intros H%(f_equal String.length); rewrite !length_append in H;
    destruct b; simpl in H; try done; lia.
Qed.

Lemma candidates_nonempty (f : string) :
  f ∈ Prebuild.candidates → f ≠ EmptyString.
Proof.
  unfold Prebuild.candidates. intros Hf ->.
  by repeat (apply elem_of_cons in Hf as [?|Hf]; [done|]);
    apply elem_of_nil in Hf.
Qed.

Lemma scan_files_shape (root : string) (files : list string) :
  match Prebuild.scan_files root files None with
  | None => ∀ f, f ∈ files → f ∉ Prebuild.candidates
  | Some p =>
      ∃ fpre f fpost,
        files = fpre ++ f :: fpost ∧ f ∈ Prebuild.candidates ∧
        p = path_join root f ∧
        ∀ g, g ∈ fpre → g ∉ Prebuild.candidates
  end.
Proof.
  induction files as [|f files IH]; simpl.
  - intros f Hf. by apply elem_of_nil in Hf.
  - case_bool_decide as Hf.
    + exists [], f, files. split_and!; [done..|].
      intros g Hg. by apply elem_of_nil in Hg.
    + destruct (Prebuild.scan_files root files None) as [p|].
      * destruct IH as (fpre & g & fpost & -> & Hg & -> & Hpre).
        exists (f :: fpre), g, fpost. split_and!; [done..|].
        intros h [->|Hh]%elem_of_cons; [done|by apply Hpre].
      * intros g [->|Hg]%elem_of_cons; [done|by apply IH].
Qed.

(** X9.  The search for a kernel in the unpacked archive returns the first
    candidate it meets: the first directory of the walk that holds a file
    named as one of the candidates, and in it the first such file in the
    order of the directory listing (the order of the candidate list plays no
    part).  It returns nothing exactly when no directory holds a candidate. *)
Theorem find_kernel_first_match
    (walk : list (string * list string * list string)) :
  match Prebuild.find_kernel walk None with
  | None =>
      ∀ root dirs files f,
        (root, dirs, files) ∈ walk → f ∈ files → f ∉ Prebuild.candidates
  | Some p =>
      ∃ pre root dirs files post fpre f fpost,
        walk = pre ++ (root, dirs, files) :: post ∧
        files = fpre ++ f :: fpost ∧
        f ∈ Prebuild.candidates ∧
        p = path_join root f ∧
        (∀ r d fs g, (r, d, fs) ∈ pre → g ∈ fs → g ∉ Prebuild.candidates) ∧
        (∀ g, g ∈ fpre → g ∉ Prebuild.candidates)
  end.
Proof.
  induction walk as [|[[root dirs] files] walk IH]; simpl.
  - intros root dirs files f Hw. by apply elem_of_nil in Hw.
  - pose proof (scan_files_shape root files) as Hs.
    destruct (Prebuild.scan_files root files None) as [p|].
    + destruct Hs as (fpre & f & fpost & -> & Hf & -> & Hpre).
      rewrite truthy_Some
        by (by apply path_join_nonempty, candidates_nonempty).
      exists [], root, dirs, (fpre ++ f :: fpost), walk, fpre, f, fpost.
      split_and!; [done..| |done].
      intros r d fs g Hin. by apply elem_of_nil in Hin.
    + simpl. destruct (Prebuild.find_kernel walk None) as [p|].
      * destruct IH as (pre & r & d & fs & post & fpre & f & fpost
                        & -> & -> & Hf & -> & Hpre & Hfpre).
        exists ((root, dirs, files) :: pre), r, d, (fpre ++ f :: fpost),
          post, fpre, f, fpost.
        split_and!; [done..| |done].
        intros r' d' fs' g [[= -> -> ->]|Hin]%elem_of_cons Hg;
          [by apply Hs|by eapply Hpre].
      * intros r d fs g [[= -> -> ->]|Hin]%elem_of_cons Hg;
          [by apply Hs|by eapply IH].
Qed.

Lemma pick_dtb_acc (root : string) (files names : list string)
    (found_dtb : option string) :
  Prebuild.pick_dtb root files names found_dtb
  = match Prebuild.pick_dtb root files names None with
    | Some p => Some p
    | None => found_dtb
    end.
Proof.
  induction names as [|f names IH]; simpl; [done|]. by case_bool_decide.
Qed.

Lemma find_dtb_acc (walk : list (string * list string * list string))
    (found_dtb : option string) :
  Prebuild.find_dtb walk found_dtb
  = match Prebuild.find_dtb walk None with
    | Some p => Some p
    | None => found_dtb
    end.
Proof.
  revert found_dtb.
  induction walk as [|[[root dirs] files] walk IH]; intros found_dtb;
    [done|].
  cbn [Prebuild.find_dtb].
  rewrite IH, (IH (Prebuild.pick_dtb _ _ _ None)), (pick_dtb_acc _ _ _ found_dtb).
  destruct (Prebuild.find_dtb walk None); [done|].
  by destruct (Prebuild.pick_dtb root files _ None).
Qed.

(** X10.  The search for a device tree in the unpacked archive does not
    stop at its first match: it returns the match of the last directory of
    the walk that holds [dtb] or [dtb.img], preferring [dtb] there.  It
    returns nothing exactly when no directory holds either. *)
Theorem find_dtb_last_match
    (walk : list (string * list string * list string)) :
  match Prebuild.find_dtb walk None with
  | None =>
      ∀ root dirs files,
        (root, dirs, files) ∈ walk → ("dtb" ∉ files) ∧ ("dtb.img" ∉ files)
  | Some p =>
      ∃ pre root dirs files post,
        walk = pre ++ (root, dirs, files) :: post ∧
        (∀ r d fs, (r, d, fs) ∈ post → ("dtb" ∉ fs) ∧ ("dtb.img" ∉ fs)) ∧
        (("dtb" ∈ files) ∧ p = path_join root "dtb"
         ∨ ("dtb" ∉ files) ∧ ("dtb.img" ∈ files) ∧
           p = path_join root "dtb.img")
  end.
Proof.
  induction walk as [|[[root dirs] files] walk IH].
  - simpl. intros root dirs files Hw. by apply elem_of_nil in Hw.
  - cbn [Prebuild.find_dtb]. rewrite find_dtb_acc.
    destruct (Prebuild.find_dtb walk None) as [p|].
    + destruct IH as (pre & r & d & fs & post & -> & Hpost & Hp).
      by exists ((root, dirs, files) :: pre), r, d, fs, post.
    + simpl. case_bool_decide as H1; [|case_bool_decide as H2].
      * exists [], root, dirs, files, walk. split_and!; [done..|by left].
      * exists [], root, dirs, files, walk. split_and!; [done..|by right].
      * intros r d fs [[= -> -> ->]|Hin]%elem_of_cons; [done|by eapply IH].
Qed.

(** ** Commands *)

Lemma prebuild_bind_trace {A B} (m : Prebuild.io A) (f : A → Prebuild.io B) :
  (m ≫= f).1 = m.1 ++ match m.2 with Ret a => (f a).1 | _ => [] end.
Proof.
  unfold mbind, Prebuild.io_bind. destruct m as [t [a| | |]]; simpl;
    by rewrite ?app_nil_r.
Qed.

Lemma prebuild_bind_outcome {A B} (m : Prebuild.io A) (f : A → Prebuild.io B) :
  (m ≫= f).2 = match m.2 with
               | Ret a => (f a).2
               | Exit status => Exit status
               | Raise => Raise
               | Diverge => Diverge
               end.
Proof. unfold mbind, Prebuild.io_bind. by destruct m as [t [a| | |]]. Qed.

(** Push the projections of a computation of [make_prebuild] through its
    binds. *)
Ltac prebuild_steps :=
  repeat (rewrite ?prebuild_bind_trace, ?prebuild_bind_outcome;
          cbn [fst snd Prebuild.emit Prebuild.log Prebuild.call mret
               Prebuild.io_ret]).

Lemma run_cmd_outcome (w : Prebuild.World) (c : Prebuild.command)
    (cwd : option string) (shell check : bool) :
  (Prebuild.run_cmd w c cwd shell check).2
  = match Prebuild.split_command c shell with
    | None => Raise
    | Some command =>
        match Prebuild.run_process w command cwd shell with
        | Prebuild.ProcRaises => Raise
        | Prebuild.ProcExits returncode _ _ =>
            Ret (negb (check && bool_decide (returncode ≠ 0)))
        end
    end.
Proof.
  unfold Prebuild.run_cmd. prebuild_steps.
  destruct (Prebuild.debug_mode w); cbn [fst snd negb];
    destruct (Prebuild.split_command c shell) as [command|]; try done;
    prebuild_steps;
    destruct (Prebuild.run_process w command cwd shell) as [|rc out err];
    try done;
    destruct (check && bool_decide (rc ≠ 0)); try done; prebuild_steps;
    try done; destruct (Prebuild.nonempty out); prebuild_steps;
    by destruct (Prebuild.nonempty err).
Qed.

Lemma run_cmd_runs (w : Prebuild.World) (c : Prebuild.command)
    (cwd : option string) (shell check : bool) :
  runs (Prebuild.run_cmd w c cwd shell check).1
  = match Prebuild.split_command c shell with
    | None => []
    | Some command => [Prebuild.Run command cwd shell]
    end ∧
  copies (Prebuild.run_cmd w c cwd shell check).1 = [].
Proof.
  unfold Prebuild.run_cmd. prebuild_steps.
  destruct (Prebuild.debug_mode w); cbn [fst snd negb];
    destruct (Prebuild.split_command c shell) as [command|]; try done;
    prebuild_steps;
    destruct (Prebuild.run_process w command cwd shell) as [|rc out err];
    try done;
    destruct (check && bool_decide (rc ≠ 0)); try done; prebuild_steps;
    try done; destruct (Prebuild.nonempty out); prebuild_steps;
    by destruct (Prebuild.nonempty err).
Qed.

(** X11.  A string command that the shell is not to read is split with
    [shlex.split] first; when that raises (a quote left open, a backslash at
    the end), the exception leaves [run_cmd] and nothing is launched.
    Otherwise the command is launched once, and [run_cmd] returns [False]
    exactly when [check] is set and the command exits with a status other
    than zero; a command that cannot be launched is not caught either.
    With [check=False] it never returns [False], so a test
    [if not run_cmd(..., check=False)] never takes its branch. *)
Theorem run_cmd_false_needs_check (w : Prebuild.World)
    (c : Prebuild.command) (cwd : option string) (shell check : bool) :
  let r := Prebuild.run_cmd w c cwd shell check in
  (Prebuild.split_command c shell = None
   ↔ ∃ s, c = Prebuild.CmdString s ∧ shell = false
          ∧ Prebuild.shlex_split s = None) ∧
  (Prebuild.split_command c shell = None → r.2 = Raise ∧ runs r.1 = []) ∧
  (∀ command,
     Prebuild.split_command c shell = Some command →
     runs r.1 = [Prebuild.Run command cwd shell] ∧
     (r.2 = Ret false
      ↔ check = true ∧
        ∃ returncode stdout stderr,
          returncode ≠ 0 ∧
          Prebuild.run_process w command cwd shell
          = Prebuild.ProcExits returncode stdout stderr) ∧
     (r.2 = Raise
      ↔ Prebuild.run_process w command cwd shell = Prebuild.ProcRaises)) ∧
  (check = false → r.2 = Ret true ∨ r.2 = Raise).
Proof.
  cbn zeta. rewrite run_cmd_outcome.
  destruct (run_cmd_runs w c cwd shell check) as [-> _]. split_and!.
  - unfold Prebuild.split_command. split.
    + destruct c as [s|argv]; [|done]. destruct shell; [done|]. simpl.
      destruct (Prebuild.shlex_split s) eqn:Hs; [done|]. intros _.
      by exists s.
    + intros (s & -> & -> & Hs). simpl. by rewrite Hs.
  - by intros ->.
  - intros command ->. split_and!; [done| |].
    + destruct (Prebuild.run_process w command cwd shell) as [|rc out err].
      * split; [done|]. by intros (_ & ? & ? & ? & _ & ?).
      * destruct check; simpl.
        -- case_bool_decide as Hrc; simpl.
           ++ split; [|done]. intros _. split; [done|].
              by exists rc, out, err.
           ++ split; [done|]. intros (_ & ? & ? & ? & Hne & [= -> _ _]).
              by destruct Hrc.
        -- split; [done|]. by intros [? _].
    + by destruct (Prebuild.run_process w command cwd shell).
  - intros ->. destruct (Prebuild.split_command c shell) as [command|];
      [|by right].
    destruct (Prebuild.run_process w command cwd shell); [by right|by left].
Qed.

(** ** The DTB step *)

Lemma str_startswith_contains (s : string) (c : ascii) :
  contains c s = false → str_startswith s c = false.
Proof.
  destruct s as [|a s]; [done|]. simpl.
  destruct (decide (a = c)); [done|]. by rewrite bool_decide_eq_false_2.
Qed.

Lemma str_endswith_elim (s : string) (c : ascii) :
  str_endswith s c = true → ∃ q, s = q +:+ String c EmptyString.
Proof.
  induction s as [|a s IH]; [done|]. simpl. destruct s as [|b s].
  - intros ->%bool_decide_eq_true. by exists EmptyString.
  - intros (q & ->)%IH. by exists (String a q).
Qed.

Lemma rfind_append_absent (c : ascii) (s t : string) :
  contains c t = false → rfind c (s +:+ t) = rfind c s.
Proof.
  intros Ht. unfold rfind. rewrite rfind_from_append.
  destruct (rfind_from_shape c t (0 + Z.of_nat (String.length s))
              (rfind_from c s 0 (-1))) as [[_ ->]|(s1 & s2 & -> & _ & _)];
    [done|].
  rewrite contains_append in Ht. simpl in Ht.
  rewrite decide_True in Ht by done. by rewrite orb_true_r in Ht.
Qed.

Lemma basename_no_slash (p : string) : contains slash (basename p) = false.
Proof.
  unfold basename.
  destruct (rfind_shape slash p) as [[Hno ->]|(s1 & s2 & -> & Hno & ->)].
  - done.
  - replace (Z.to_nat (Z.of_nat (String.length s1) + 1))
      with (String.length (s1 +:+ String slash EmptyString))
      by (rewrite length_append; simpl; lia).
    rewrite <-(append_nil_l s2), <-append_cons, <-append_assoc.
    by rewrite str_drop_append.
Qed.

Lemma basename_after_directory (pre name : string) :
  pre = EmptyString ∨ str_endswith pre slash = true →
  contains slash name = false →
  basename (pre +:+ name) = name.
Proof.
  intros Hpre Hname. unfold basename. rewrite rfind_append_absent by done.
  destruct Hpre as [->|(q & ->)%str_endswith_elim]; [done|].
  assert (rfind slash (q +:+ String slash EmptyString)
          = Z.of_nat (String.length q)) as ->.
  { unfold rfind. rewrite rfind_from_append. simpl. lia. }
  replace (Z.to_nat (Z.of_nat (String.length q) + 1))
    with (String.length (q +:+ String slash EmptyString))
    by (rewrite length_append; simpl; lia).
  apply str_drop_append.
Qed.

Lemma str_endswith_append_slash (a : string) :
  str_endswith (a +:+ "/") slash = true.
Proof.
  induction a as [|c a IH]; [done|]. rewrite append_cons. simpl.
  destruct (a +:+ "/") eqn:E; [by destruct a|done].
Qed.

(** [basename] undoes [os.path.join] for a name without a slash. *)
Lemma basename_path_join (a name : string) :
  contains slash name = false → basename (path_join a name) = name.
Proof.
  intros Hname. unfold path_join.
  rewrite str_startswith_contains by done.
  destruct (bool_decide (a = EmptyString) || str_endswith a slash) eqn:Ha.
  - apply basename_after_directory; [|done].
    apply orb_true_iff in Ha as [Ha%bool_decide_eq_true|Ha]; [by left|by right].
  - rewrite <-append_assoc. apply basename_after_directory; [|done].
    right. apply str_endswith_append_slash.
Qed.

Lemma endswith_elim (s suffix : string) :
  endswith s suffix = true → ∃ x, s = x +:+ suffix.
Proof.
  induction s as [|c s IH]; simpl.
  - rewrite orb_false_r. intros <-%bool_decide_eq_true. by exists EmptyString.
  - intros [<-%bool_decide_eq_true|(x & ->)%IH]%orb_true_iff.
    + by exists EmptyString.
    + by exists (String c x).
Qed.

Lemma str_drop_append_le (n : nat) (s t : string) :
  (n ≤ String.length s)%nat → str_drop n (s +:+ t) = str_drop n s +:+ t.
Proof.
  revert s. induction n as [|n IH]; intros [|c s] Hn; simpl in *;
    try done; try lia.
  rewrite ?append_cons. apply IH. lia.
Qed.

Lemma basename_endswith_dtb (f : string) :
  endswith f ".dtb" = true → endswith (basename f) ".dtb" = true.
Proof.
  intros (x & ->)%endswith_elim. unfold basename.
  rewrite rfind_slash_dtb.
  destruct (rfind_slash_component x) as (s1 & s2 & Hx & Hlt & Hstart & _).
  rewrite str_drop_append_le by lia. apply endswith_append.
Qed.

(** X12.  The names the DTB step returns are the base names of the globbed
    paths that end in [.dtb]: each ends in [.dtb] and has no slash.  When
    the glob lists the output directory itself, that is when every path it
    returns is [os.path.join(out_dir, f)] for a name [f] without a slash,
    joining the output directory to the returned names, as the last step
    does to delete them, gives back the globbed paths.  When the unpacked
    image holds no [dtb], or the extraction script is missing, the step runs
    no command, copies nothing and returns the empty list.  Otherwise the
    status of the extraction is ignored: the step goes on to list the output
    directory and to copy the source blob twice whenever the command could
    be launched. *)
Theorem dtb_step_returns_plain_names (w : Prebuild.World)
    (vkb_work_dir out_dir : string) :
  let r := Prebuild.step_3_1_process_dtb w vkb_work_dir out_dir in
  let globbed := Prebuild.glob w (path_join out_dir "*.dtb") false in
  (∀ names, r.2 = Ret names →
     Forall (λ n, endswith n ".dtb" = true ∧ contains slash n = false)
       names) ∧
  (Prebuild.glob w (path_join vkb_work_dir "dtb") false = []
   ∨ Prebuild.path_exists w (Prebuild.EXTRACT_DTB_SCRIPT w) = false →
   r.2 = Ret [] ∧ Forall (λ e, ∃ m, e = Prebuild.Print m) r.1) ∧
  (∀ dtb_src rest returncode stdout stderr,
     Prebuild.glob w (path_join vkb_work_dir "dtb") false = dtb_src :: rest →
     Prebuild.path_exists w (Prebuild.EXTRACT_DTB_SCRIPT w) = true →
     Prebuild.run_process w
       (Prebuild.CmdArgv
          [Prebuild.executable w; Prebuild.EXTRACT_DTB_SCRIPT w; "--input";
           dtb_src; "--out-dir"; out_dir]) None false
     = Prebuild.ProcExits returncode stdout stderr →
     r.2 = Ret (basename <$>
                filter (λ f, endswith f ".dtb" = true) globbed) ∧
     Prebuild.Copy dtb_src (path_join out_dir "dtb.img") ∈ r.1 ∧
     Prebuild.Copy dtb_src (path_join out_dir "dtb") ∈ r.1 ∧
     ((∀ p, p ∈ globbed →
         ∃ f, contains slash f = false ∧ p = path_join out_dir f) →
      ∀ names, r.2 = Ret names →
        path_join out_dir <$> names
        = filter (λ f, endswith f ".dtb" = true) globbed)).
Proof.
  cbn zeta.
  assert (∀ dtb_src rest returncode stdout stderr,
    Prebuild.glob w (path_join vkb_work_dir "dtb") false = dtb_src :: rest →
    Prebuild.path_exists w (Prebuild.EXTRACT_DTB_SCRIPT w) = true →
    Prebuild.run_process w
      (Prebuild.CmdArgv
         [Prebuild.executable w; Prebuild.EXTRACT_DTB_SCRIPT w; "--input";
          dtb_src; "--out-dir"; out_dir]) None false
    = Prebuild.ProcExits returncode stdout stderr →
    let r := Prebuild.step_3_1_process_dtb w vkb_work_dir out_dir in
    r.2 = Ret (basename <$>
               filter (λ f, endswith f ".dtb" = true)
                 (Prebuild.glob w (path_join out_dir "*.dtb") false)) ∧
    Prebuild.Copy dtb_src (path_join out_dir "dtb.img") ∈ r.1 ∧
    Prebuild.Copy dtb_src (path_join out_dir "dtb") ∈ r.1) as Hrun.
  { intros dtb_src rest returncode stdout stderr Hglob Hscript Hrun.
    cbn zeta. unfold Prebuild.step_3_1_process_dtb.
    rewrite Hglob, Hscript. cbn [negb].
    prebuild_steps. rewrite run_cmd_outcome.
    cbn [Prebuild.split_command]. rewrite Hrun. prebuild_steps.
    unfold Prebuild.copy_file. prebuild_steps.
    destruct (Prebuild.copy_ok w dtb_src (path_join out_dir "dtb.img"));
      [destruct (Prebuild.debug_mode w)|]; prebuild_steps;
      (destruct (Prebuild.copy_ok w dtb_src (path_join out_dir "dtb"));
       [destruct (Prebuild.debug_mode w)|]); prebuild_steps;
      (split_and!; [done|set_solver..]). }
  split_and!.
  - intros names. unfold Prebuild.step_3_1_process_dtb.
    destruct (Prebuild.glob w (path_join vkb_work_dir "dtb") false)
      as [|dtb_src rest] eqn:Hglob.
    { prebuild_steps. by intros [= <-]. }
    destruct (Prebuild.path_exists w (Prebuild.EXTRACT_DTB_SCRIPT w))
      eqn:Hscript; cbn [negb].
    2:{ prebuild_steps. by intros [= <-]. }
    prebuild_steps. rewrite run_cmd_outcome. cbn [Prebuild.split_command].
    destruct (Prebuild.run_process w _ None false) as [|rc out err] eqn:Hp;
      [done|].
    destruct (Hrun dtb_src rest rc out err eq_refl eq_refl Hp) as (Ho & _).
    unfold Prebuild.step_3_1_process_dtb in Ho.
    rewrite Hglob, Hscript in Ho. cbn [negb] in Ho.
    revert Ho. prebuild_steps. rewrite run_cmd_outcome.
    cbn [Prebuild.split_command]. rewrite Hp. intros -> [= <-].
    apply Forall_fmap, Forall_forall.
    intros f [Hf _]%list_elem_of_filter; simpl.
    split; [by apply basename_endswith_dtb|apply basename_no_slash].
  - unfold Prebuild.step_3_1_process_dtb. intros [->|Hscript].
    + prebuild_steps. split; [done|]. repeat constructor; by eexists.
    + destruct (Prebuild.glob w (path_join vkb_work_dir "dtb") false).
      * prebuild_steps. split; [done|]. repeat constructor; by eexists.
      * rewrite Hscript. cbn [negb]. prebuild_steps. split; [done|].
        repeat constructor; by eexists.
  - intros dtb_src rest returncode stdout stderr Hglob Hscript Hp.
    destruct (Hrun dtb_src rest returncode stdout stderr Hglob Hscript Hp)
      as (Ho & Hc1 & Hc2).
    split_and!; [done..|].
    intros Hdir names. rewrite Ho. intros [= <-].
    rewrite <-list_fmap_compose.
    rewrite <-(list_fmap_id (filter _ _)) at 2.
    apply Forall_fmap_ext, Forall_forall.
    intros p [_ Hin]%list_elem_of_filter.
    destruct (Hdir p Hin) as (f & Hf & ->). simpl.
    by rewrite basename_path_join.
Qed.

Lemma dtb_step_returns_plain_names_witness :
  (Prebuild.step_3_1_process_dtb prebuild_world "/tmp/t/vkb_extract" "/out").2
  = Ret ["zuma-b0-ipop.dtb"; "unknown_01.dtb"] ∧
  path_join "/out" <$> ["zuma-b0-ipop.dtb"; "unknown_01.dtb"]
  = ["/out/zuma-b0-ipop.dtb"; "/out/unknown_01.dtb"].
Proof.
  destruct (proj2 (proj2 (dtb_step_returns_plain_names prebuild_world
              "/tmp/t/vkb_extract" "/out"))
              "/tmp/t/vkb_extract/dtb" [] 1 EmptyString EmptyString
              eq_refl eq_refl eq_refl) as (Ho & _ & _ & Hjoin).
  split; [exact Ho|].
  apply Hjoin; [|exact Ho].
  intros p Hp. apply elem_of_cons in Hp as [->|Hp].
  { exists "zuma-b0-ipop.dtb". split; reflexivity. }
  apply elem_of_cons in Hp as [->|Hp].
  { exists "unknown_01.dtb". split; reflexivity. }
  by apply elem_of_nil in Hp.
Defined.

(** ** The first step *)

Lemma runs_app (t1 t2 : list Prebuild.event) :
  runs (t1 ++ t2) = runs t1 ++ runs t2.
Proof. apply omap_app. Qed.

Lemma copies_app (t1 t2 : list Prebuild.event) :
  copies (t1 ++ t2) = copies t1 ++ copies t2.
Proof. apply omap_app. Qed.

Lemma copy_file_shape (w : Prebuild.World) (src dst : string) :
  (Prebuild.copy_file w src dst).2 = Ret () ∧
  runs (Prebuild.copy_file w src dst).1 = [] ∧
  copies (Prebuild.copy_file w src dst).1 = [(src, dst)].
Proof.
  unfold Prebuild.copy_file. prebuild_steps.
  by destruct (Prebuild.copy_ok w src dst), (Prebuild.debug_mode w).
Qed.

Lemma for_files_cons {S} (body : string → S → Prebuild.io S) (f : string)
    (files : list string) (s : S) :
  Prebuild.for_files body (f :: files) s
  = body f s ≫= Prebuild.for_files body files.
Proof. reflexivity. Qed.

Lemma copy_loop_shape (w : Prebuild.World) (out_dir : string)
    (ko_files : list string) (count : nat) :
  let kept := filter (λ f, substring_in "16k-mode" f = false) ko_files in
  let r :=
    Prebuild.for_files
      (λ f count,
         if negb (substring_in "16k-mode" f) then
           Prebuild.copy_file w f out_dir;; mret (S count)
         else mret count)
      ko_files count in
  r.2 = Ret (count + length kept)%nat ∧
  runs r.1 = [] ∧
  copies r.1 = (λ f, (f, out_dir)) <$> kept.
Proof.
  revert count. induction ko_files as [|f files IH]; intros count.
  - cbn. by rewrite Nat.add_0_r.
  - cbn zeta. rewrite for_files_cons, filter_cons.
    destruct (copy_file_shape w f out_dir) as (Ho & Hr & Hc).
    destruct (substring_in "16k-mode" f) eqn:Hf; cbn [negb].
    + rewrite decide_False by done. prebuild_steps. rewrite app_nil_l.
      destruct (IH count) as (IHo & IHr & IHc). by rewrite IHo, IHr, IHc.
    + rewrite decide_True by done. prebuild_steps. rewrite Ho.
      prebuild_steps. destruct (IH (S count)) as (IHo & IHr & IHc).
      rewrite ?app_nil_l, ?app_nil_r.
      rewrite !runs_app, !copies_app, Hr, Hc, IHo, IHr, IHc. simpl.
      split_and!; [f_equal; lia|done..].
Qed.

(** X13.  The loop over the modules found copies every file but those
    with [16k-mode] in their path, each to the output directory and in the
    order found, and the count it ends with is the number of those copy
    calls, whether or not the copies succeeded. *)
Theorem copy_modules_skips_16k (w : Prebuild.World) (ko_files : list string)
    (out_dir : string) :
  let kept := filter (λ f, substring_in "16k-mode" f = false) ko_files in
  (Prebuild.copy_modules w ko_files out_dir).2 = Ret (length kept) ∧
  copies (Prebuild.copy_modules w ko_files out_dir).1
  = (λ f, (f, out_dir)) <$> kept ∧
  (∀ src dst,
     (src, dst) ∈ copies (Prebuild.copy_modules w ko_files out_dir).1 →
     substring_in "16k-mode" src = false ∧ src ∈ ko_files ∧ dst = out_dir).
Proof.
  cbn zeta. unfold Prebuild.copy_modules.
  destruct (copy_loop_shape w out_dir ko_files 0) as (Ho & _ & Hc).
  split_and!; [done..|].
  intros src dst. rewrite Hc.
  intros (f & [= -> ->] & [Hf Hin]%list_elem_of_filter)%list_elem_of_fmap.
  done.
Qed.

Lemma copy_modules_skips_16k_witness :
  copies (Prebuild.copy_modules prebuild_world
            ["/m/lib/a.ko"; "/m/16k-mode/a.ko"; "/m/lib/b.ko"] "/out").1
  = [("/m/lib/a.ko", "/out"); ("/m/lib/b.ko", "/out")] ∧
  substring_in "16k-mode" "/m/lib/b.ko" = false.
Proof.
  split; [reflexivity|].
  apply (proj2 (proj2 (copy_modules_skips_16k prebuild_world
           ["/m/lib/a.ko"; "/m/16k-mode/a.ko"; "/m/lib/b.ko"] "/out"))
           "/m/lib/b.ko" "/out").
  right. left.
Defined.

Lemma last_app_two {A} (l : list A) (a b : A) : last (l ++ [a; b]) = Some b.
Proof. change [a; b] with ([a] ++ [b]). by rewrite app_assoc, last_snoc. Qed.

Lemma try_finally_shape {A} (body : Prebuild.io A) (handler : Prebuild.io unit) :
  body.2 ≠ Diverge →
  (Prebuild.try_finally body handler).1 = body.1 ++ handler.1 ∧
  (body.2 = Raise → (Prebuild.try_finally body handler).2 = Raise
                    ∨ (Prebuild.try_finally body handler).2 = Diverge
                    ∨ ∃ status,
                        (Prebuild.try_finally body handler).2 = Exit status).
Proof.
  unfold Prebuild.try_finally. destruct body as [t [a| | |]]; simpl;
    intros Hd; try done; (split; [done|]); try done.
  intros _. destruct handler.2; eauto.
Qed.

Lemma unmount_image_trace (w : Prebuild.World) (mount_point : string) :
  (Prebuild.unmount_image w mount_point).1
  = [Prebuild.Print (Prebuild.MsgUnmounting mount_point);
     Prebuild.Run (Prebuild.umount_command mount_point) None true].
Proof.
  unfold Prebuild.unmount_image. prebuild_steps.
  by destruct (Prebuild.run_process w _ None true).
Qed.

Lemma elem_of_runs (t : list Prebuild.event) (c : Prebuild.command)
    (cwd : option string) (shell : bool) :
  Prebuild.Run c cwd shell ∈ t ↔ Prebuild.Run c cwd shell ∈ runs t.
Proof.
  unfold runs. rewrite list_elem_of_omap. split.
  - intros H. by eexists.
  - intros (e & He & Hr). by destruct e; simplify_eq.
Qed.

(** The body of the [try] of the first step runs no command and ends by
    returning or by raising; it raises when the block list is missing and
    cannot be created. *)
Lemma step_1_body_shape (w : Prebuild.World) (mnt_dir out_dir : string) :
  let body : Prebuild.io unit :=
    count ← Prebuild.copy_modules w (Prebuild.find_files w mnt_dir "*.ko")
              out_dir;
    Prebuild.log (Prebuild.MsgModulesCopied count);;
    match Prebuild.find_files w mnt_dir "modules.blocklist" with
    | blocklist :: _ =>
        Prebuild.copy_file w blocklist
          (path_join out_dir "system_dlkm.modules.blocklist");;
        Prebuild.log Prebuild.MsgBlocklistCopied
    | [] =>
        Prebuild.call
          (Prebuild.Touch (path_join out_dir "system_dlkm.modules.blocklist"))
          (Prebuild.touch_ok w
             (path_join out_dir "system_dlkm.modules.blocklist"));;
        Prebuild.log Prebuild.MsgBlocklistCreated
    end;;
    match Prebuild.find_files w mnt_dir "modules.load" with
    | load :: _ =>
        Prebuild.copy_file w load
          (path_join out_dir "system_dlkm.modules.load");;
        Prebuild.log Prebuild.MsgLoadCopied
    | [] => Prebuild.log Prebuild.MsgLoadMissing
    end in
  runs body.1 = [] ∧
  body.2
  = (if bool_decide (Prebuild.find_files w mnt_dir "modules.blocklist" = [])
        && negb (Prebuild.touch_ok w
                   (path_join out_dir "system_dlkm.modules.blocklist"))
     then Raise else Ret ()).
Proof.
  cbn zeta. unfold Prebuild.copy_modules.
  destruct (copy_loop_shape w out_dir (Prebuild.find_files w mnt_dir "*.ko") 0)
    as (Ho & Hr & _).
  prebuild_steps. rewrite Ho. prebuild_steps.
  destruct (Prebuild.find_files w mnt_dir "modules.blocklist")
    as [|blocklist ?]; simpl bool_decide; cbn [andb].
  - prebuild_steps.
    destruct (Prebuild.touch_ok w _); cbn [negb]; prebuild_steps.
    + destruct (Prebuild.find_files w mnt_dir "modules.load") as [|load ?];
        prebuild_steps.
      * by rewrite !runs_app, Hr.
      * destruct (copy_file_shape w load
                    (path_join out_dir "system_dlkm.modules.load"))
          as (Hco & Hcr & _).
        rewrite Hco. prebuild_steps. by rewrite !runs_app, Hr, Hcr.
    + by rewrite !runs_app, Hr.
  - rewrite ?bool_decide_eq_false_2 by done. cbn [andb]. prebuild_steps.
    destruct (copy_file_shape w blocklist
                (path_join out_dir "system_dlkm.modules.blocklist"))
      as (Hbo & Hbr & _).
    rewrite Hbo. prebuild_steps.
    destruct (Prebuild.find_files w mnt_dir "modules.load") as [|load ?];
      prebuild_steps.
    + by rewrite !runs_app, Hr, Hbr.
    + destruct (copy_file_shape w load
                  (path_join out_dir "system_dlkm.modules.load"))
        as (Hco & Hcr & _).
      rewrite Hco. prebuild_steps. by rewrite !runs_app, Hr, Hbr, Hcr.
Qed.

(** X14.  The first step unmounts what it mounted, and nothing else: the
    commands it runs are the mount and then, exactly when the mount exited
    with status 0, the unmount, which is then the last thing the step does.
    This holds whatever happens in between: when the block list is missing
    and the empty one cannot be created, the exception leaves the step and
    the image has been unmounted all the same. *)
Theorem step_1_unmounts_what_it_mounted (w : Prebuild.World)
    (tmp_dir input_dir out_dir : string) :
  let mnt_dir := path_join tmp_dir "mnt_system" in
  let mount_cmd :=
    Prebuild.CmdString
      ("sudo mount -o loop,ro " +:+ path_join input_dir "system_dlkm.img"
       +:+ " " +:+ mnt_dir) in
  let mount := Prebuild.Run mount_cmd None true in
  let umount := Prebuild.Run (Prebuild.umount_command mnt_dir) None true in
  let r := Prebuild.step_1_system_dlkm w tmp_dir input_dir out_dir in
  runs r.1
  = (if Prebuild.path_exists w mnt_dir || Prebuild.makedirs_ok w mnt_dir then
       match Prebuild.run_process w mount_cmd None true with
       | Prebuild.ProcExits returncode _ _ =>
           if bool_decide (returncode = 0) then [mount; umount] else [mount]
       | Prebuild.ProcRaises => [mount]
       end
     else []) ∧
  (umount ∈ r.1 → last r.1 = Some umount) ∧
  (∀ stdout stderr,
     Prebuild.path_exists w mnt_dir || Prebuild.makedirs_ok w mnt_dir = true →
     Prebuild.run_process w mount_cmd None true
     = Prebuild.ProcExits 0 stdout stderr →
     Prebuild.find_files w mnt_dir "modules.blocklist" = [] →
     Prebuild.touch_ok w (path_join out_dir "system_dlkm.modules.blocklist")
     = false →
     last r.1 = Some umount ∧ ∀ v, r.2 ≠ Ret v).
Proof.
  cbn zeta.
  set (mnt_dir := path_join tmp_dir "mnt_system").
  set (mount_cmd := Prebuild.CmdString _).
  assert (Prebuild.Run (Prebuild.umount_command mnt_dir) None true
          ≠ Prebuild.Run mount_cmd None true) as Hne.
  { subst mount_cmd. unfold Prebuild.umount_command.
    rewrite !append_cons. discriminate. }
  pose proof (step_1_body_shape w mnt_dir out_dir) as Hbody.
  cbn zeta in Hbody.
  unfold Prebuild.step_1_system_dlkm, Prebuild.mount_image,
    Prebuild.ensure_dir. cbn zeta.
  fold mnt_dir. fold mount_cmd.
  match goal with
  | |- context [Prebuild.try_finally ?b _] => set (body := b) in *
  end.
  destruct Hbody as [Hbr Hbo].
  destruct (try_finally_shape body (Prebuild.unmount_image w mnt_dir))
    as [Hft Hfo].
  { rewrite Hbo. by case_match. }
  rewrite unmount_image_trace in Hft.
  destruct (run_cmd_runs w mount_cmd None true true) as [Hmr _].
  pose proof (run_cmd_outcome w mount_cmd None true true) as Hmo.
  change (Prebuild.split_command mount_cmd true) with (Some mount_cmd)
    in Hmr, Hmo.
  cbv beta iota in Hmr, Hmo.
  assert (∀ t : list Prebuild.event, runs t = [Prebuild.Run mount_cmd None true]
            → Prebuild.Run (Prebuild.umount_command mnt_dir) None true ∉ t)
    as Hnot.
  { intros t Ht Hin. apply elem_of_runs in Hin. rewrite Ht in Hin.
    by apply list_elem_of_singleton in Hin. }
  destruct (Prebuild.path_exists w mnt_dir); cbn [negb orb].
  - prebuild_steps. rewrite Hmo.
    destruct (Prebuild.run_process w mount_cmd None true) as [|rc out err].
    + rewrite ?app_nil_l, ?app_nil_r, !runs_app, Hmr. split_and!; [done| |done].
      intros Hin. exfalso. revert Hin. apply Hnot.
      by rewrite ?app_nil_l, ?app_nil_r, !runs_app, Hmr.
    + cbn [andb]. case_bool_decide as Hrc; cbn [negb].
      * rewrite bool_decide_eq_false_2 by done. prebuild_steps.
        rewrite ?app_nil_l, ?app_nil_r, !runs_app, Hmr. split_and!; [done| |].
        -- intros Hin. exfalso. revert Hin. apply Hnot.
           by rewrite ?app_nil_l, ?app_nil_r, !runs_app, Hmr.
        -- intros ? ? _ [= ? _ _]. done.
      * assert (rc = 0) as -> by (destruct (decide (rc = 0)); [done|];
                                   by destruct Hrc).
        rewrite bool_decide_eq_true_2 by done.
        rewrite Hft, ?app_nil_l, !runs_app, Hmr, Hbr. split_and!; [done| |].
        -- intros _. by rewrite !app_assoc, last_app_two.
        -- intros ? ? _ _ Hbl Ht. split; [by rewrite !app_assoc, last_app_two|].
           intros v Hv. destruct Hfo as [Hf|[Hf|[? Hf]]].
           { rewrite Hbo, Hbl, Ht. by rewrite bool_decide_eq_true_2. }
           all: congruence.
  - unfold Prebuild.call.
    destruct (Prebuild.makedirs_ok w mnt_dir); prebuild_steps.
    2:{ split_and!; [done| |done]. intros Hin.
        by repeat (apply elem_of_cons in Hin as [?|Hin]; [done|]);
          apply elem_of_nil in Hin. }
    rewrite Hmo.
    destruct (Prebuild.run_process w mount_cmd None true) as [|rc out err].
    + rewrite ?app_nil_l, ?app_nil_r, !runs_app, Hmr. split_and!; [done| |done].
      intros Hin. exfalso. revert Hin. apply Hnot.
      by rewrite ?app_nil_l, ?app_nil_r, !runs_app, Hmr.
    + cbn [andb]. case_bool_decide as Hrc; cbn [negb].
      * rewrite bool_decide_eq_false_2 by done. prebuild_steps.
        rewrite ?app_nil_l, ?app_nil_r, !runs_app, Hmr. split_and!; [done| |].
        -- intros Hin. exfalso. revert Hin. apply Hnot.
           by rewrite ?app_nil_l, ?app_nil_r, !runs_app, Hmr.
        -- intros ? ? _ [= ? _ _]. done.
      * assert (rc = 0) as -> by (destruct (decide (rc = 0)); [done|];
                                   by destruct Hrc).
        rewrite bool_decide_eq_true_2 by done.
        rewrite Hft, ?app_nil_l, !runs_app, Hmr, Hbr. split_and!; [done| |].
        -- intros _. by rewrite !app_assoc, last_app_two.
        -- intros ? ? _ _ Hbl Ht. split; [by rewrite !app_assoc, last_app_two|].
           intros v Hv. destruct Hfo as [Hf|[Hf|[? Hf]]].
           { rewrite Hbo, Hbl, Ht. by rewrite bool_decide_eq_true_2. }
           all: congruence.
Qed.

Lemma step_1_unmounts_what_it_mounted_witness :
  runs (Prebuild.step_1_system_dlkm prebuild_world "/tmp/t" "/in" "/out").1
  = [Prebuild.Run
       (Prebuild.CmdString
          "sudo mount -o loop,ro /in/system_dlkm.img /tmp/t/mnt_system")
       None true;
     Prebuild.Run (Prebuild.CmdString "sudo umount /tmp/t/mnt_system")
       None true] ∧
  last (Prebuild.step_1_system_dlkm prebuild_world "/tmp/t" "/in" "/out").1
  = Some (Prebuild.Run (Prebuild.CmdString "sudo umount /tmp/t/mnt_system")
            None true) ∧
  (Prebuild.step_1_system_dlkm prebuild_world "/tmp/t" "/in" "/out").2
  = Raise.
Proof.
  pose proof (step_1_unmounts_what_it_mounted prebuild_world "/tmp/t" "/in"
                "/out") as (Hruns & _ & Hlast).
  split_and!; [exact Hruns| |reflexivity].
  apply (Hlast EmptyString EmptyString); reflexivity.
Defined.

Lemma run_cmd_false_needs_check_witness :
  (Prebuild.run_cmd prebuild_world
     (Prebuild.CmdString "magiskboot decompress Image.gz kernel")
     None false false).2
  = Ret true ∧
  (Prebuild.run_cmd prebuild_world
     (Prebuild.CmdString "magiskboot decompress it's kernel")
     None false false).2
  = Raise ∧
  runs (Prebuild.run_cmd prebuild_world
          (Prebuild.CmdString "magiskboot decompress it's kernel")
          None false false).1
  = [].
Proof.
  split.
  - destruct (proj2 (proj2 (proj2 (run_cmd_false_needs_check prebuild_world
                (Prebuild.CmdString "magiskboot decompress Image.gz kernel")
                None false false))) eq_refl) as [H|H];
      [exact H|discriminate H].
  - apply (proj1 (proj2 (run_cmd_false_needs_check prebuild_world
             (Prebuild.CmdString "magiskboot decompress it's kernel")
             None false false))).
    reflexivity.
Defined.

(** * The run on any console *)

(** ** A console that writes every line *)

Lemma print_on_writes (console : message → bool) (m : message) :
  console m = true → print_on console m = print m.
Proof. unfold print_on, call. by intros ->. Qed.

Lemma bind_ext {A B} (m : io A) (f g : A → io B) :
  (∀ a, f a = g a) → m ≫= f = m ≫= g.
Proof.
  intros H. unfold mbind, io_bind. destruct m as [t [a| | |]]; simpl;
    by rewrite ?H.
Qed.

Lemma for_each_ext {S} (f g : nat → S → io S) (idx : list nat) (s : S) :
  (∀ i s, f i s = g i s) → for_each f idx s = for_each g idx s.
Proof.
  intros H. revert s. induction idx as [|i idx IH]; intros s; [done|].
  rewrite !for_each_cons, H. by apply bind_ext.
Qed.

Lemma get_readable_name_on_writes (console : message → bool) (w : World)
    (dtb_path : string) (content : list byte) :
  console (MsgParseError dtb_path) = true →
  get_readable_name_on console w dtb_path content
  = get_readable_name w dtb_path content.
Proof.
  intros H. unfold get_readable_name_on, get_readable_name.
  by rewrite print_on_writes.
Qed.

Lemma region_body_on_writes (console : message → bool) (w : World)
    (args : Args) (content : list byte) (positions : list Z) (i : nat)
    (used_names : gmap string nat) :
  (∀ m, console m = true) →
  region_body_on console w args content positions i used_names
  = region_body w args content positions i used_names.
Proof.
  intros H. unfold region_body_on, region_body.
  rewrite get_readable_name_on_writes by done.
  apply bind_ext. intros _. apply bind_ext. intros new_name.
  destruct (truthy new_name) as [n|].
  - destruct (resolve_name used_names n) as [used' name].
    by rewrite print_on_writes.
  - by rewrite print_on_writes.
Qed.

(** On a console that writes every line the run is the run of [main]. *)
Lemma main_on_writes (console : message → bool) (w : World) (args : Args) :
  (∀ m, console m = true) → main_on console w args = main w args.
Proof.
  intros H. unfold main_on, main.
  destruct (negb (path_exists w (input args))); [by rewrite print_on_writes|].
  apply bind_ext. intros _.
  destruct (read_file w (input args)) as [content|]; [|done].
  destruct (scan content) as [[|p ps]|]; [by rewrite print_on_writes| |done].
  rewrite !print_on_writes by done.
  apply bind_ext. intros _. apply bind_ext. intros _.
  by rewrite (for_each_ext _ (region_body w args content (p :: ps)))
    by (intros; by apply region_body_on_writes).
Qed.

(** ** One iteration on any console *)

Lemma get_readable_name_on_shape (console : message → bool) (w : World)
    (dtb_path : string) (content : list byte) :
  let g := get_readable_name_on console w dtb_path content in
  dumped g.1 = [] ∧ renamed g.1 = [] ∧
  (g.2 = Raise ∨ ∃ new_name, g.2 = Ret new_name).
Proof.
  cbn zeta. unfold get_readable_name_on, print_on, call.
  destruct (run_dtc w dtb_path content) as [[returncode stdout]|];
    [case_bool_decide; [|destruct (name_of_dts stdout)]|];
    try destruct (console _); cbn; split_and!; eauto.
Qed.

Lemma elem_of_dumped (t : list event) (path : string) (content : list byte) :
  DumpFile path content ∈ t ↔ (path, content) ∈ dumped t.
Proof.
  unfold dumped. rewrite list_elem_of_omap. split.
  - intros H. by eexists.
  - intros (e & He & Hr). by destruct e; simplify_eq.
Qed.

Lemma region_body_on_shape (console : message → bool) (w : World)
    (args : Args) (content : list byte) (positions : list Z) (i : nat)
    (used_names : gmap string nat) :
  let r := region_body_on console w args content positions i used_names in
  let tp := temp_path args i in
  let chunk := chunk_at content positions i in
  dumped r.1 = [(tp, chunk)] ∧
  (write_ok w tp = false → r = ([DumpFile tp chunk], Raise)) ∧
  (∀ used', r.2 = Ret used' → (renamed r.1).*1 = [tp]) ∧
  (r.2 = Raise ∨ ∃ used', r.2 = Ret used').
Proof.
  cbn zeta.
  destruct (get_readable_name_on_shape console w (temp_path args i)
              (chunk_at content positions i)) as (Hd & Hr & Ho).
  unfold region_body_on, dump_file, call, print_on. fold (temp_path args i).
  rewrite bind_trace, bind_outcome. cbn [fst snd].
  destruct (write_ok w (temp_path args i)).
  2:{ split_and!; [done|done|done|by left]. }
  rewrite bind_trace, bind_outcome.
  destruct (get_readable_name_on console w (temp_path args i)
              (chunk_at content positions i)) as [t o]. cbn [fst snd] in *.
  destruct Ho as [->|[new_name ->]].
  { rewrite app_nil_r. cbn [app dumped omap list_omap]. fold (dumped t).
    rewrite Hd. split_and!; [done|done|done|by left]. }
  destruct (truthy new_name) as [n|];
    [destruct (resolve_name used_names n) as [used' name]|];
    unfold call; rewrite !bind_trace, !bind_outcome; cbn [fst snd];
    rewrite !dumped_app, !renamed_app, Hd, Hr;
    destruct (rename_ok w _ _); cbn [app];
    try destruct (console _); cbn; split_and!; eauto; done.
Qed.

(** ** The loop on any console *)

Lemma for_each_on_prefix (console : message → bool) (w : World) (args : Args)
    (content : list byte) (positions : list Z) (m k : nat)
    (used_names : gmap string nat) :
  let r := for_each (region_body_on console w args content positions)
             (seq k m) used_names in
  (∃ n, (n ≤ m)%nat ∧
     dumped r.1
     = (λ j, (temp_path args j, chunk_at content positions j)) <$> seq k n) ∧
  (r.2 = Raise ∨ ∃ used', r.2 = Ret used').
Proof.
  revert k used_names. induction m as [|m IH]; intros k used_names.
  { split; [by exists O|]. right. by eexists. }
  cbn zeta. change (seq k (S m)) with (k :: seq (S k) m).
  rewrite for_each_cons, bind_trace, bind_outcome.
  destruct (region_body_on_shape console w args content positions k
              used_names) as (Hd & _ & _ & Ho).
  rewrite dumped_app, Hd.
  destruct Ho as [->|[used' ->]].
  - split; [|by left]. exists 1%nat. split; [lia|]. by rewrite app_nil_r.
  - destruct (IH (S k) used') as ((n & Hn & ->) & Ho).
    split; [|done]. exists (S n). split; [lia|done].
Qed.

(** A temporary file that cannot be written ends the loop there: what was
    dumped stops at that region at the latest, and when the loop got as far
    as that region, every region before it has been dumped and renamed and
    the failed call is the last thing done. *)
Lemma for_each_on_write_fails (console : message → bool) (w : World)
    (args : Args) (content : list byte) (positions : list Z) (m k i : nat)
    (used_names : gmap string nat) :
  (k ≤ i < k + m)%nat →
  write_ok w (temp_path args i) = false →
  let r := for_each (region_body_on console w args content positions)
             (seq k m) used_names in
  let region := λ j, (temp_path args j, chunk_at content positions j) in
  let failed := DumpFile (temp_path args i) (chunk_at content positions i) in
  r.2 = Raise ∧
  (∃ n, (n ≤ S (i - k))%nat ∧ dumped r.1 = region <$> seq k n) ∧
  (failed ∈ r.1 →
     dumped r.1 = region <$> seq k (S (i - k)) ∧
     (renamed r.1).*1 = temp_path args <$> seq k (i - k) ∧
     last r.1 = Some failed).
Proof.
  intros Hi Hfail. cbn zeta. revert k used_names Hi.
  induction m as [|m IH]; intros k used_names Hi; [lia|].
  change (seq k (S m)) with (k :: seq (S k) m).
  rewrite for_each_cons, bind_trace, bind_outcome.
  destruct (region_body_on_shape console w args content positions k
              used_names) as (Hd & Hw & Hren & Ho).
  destruct (decide (i = k)) as [->|Hik].
  { rewrite (Hw Hfail). cbn [fst snd]. rewrite Nat.sub_diag.
    split_and!; [done|by exists 1%nat|done]. }
  assert (DumpFile (temp_path args i) (chunk_at content positions i)
          ∉ (region_body_on console w args content positions k used_names).1)
    as Hnot.
  { rewrite elem_of_dumped, Hd, list_elem_of_singleton.
    intros [= E%temp_path_inj _]. done. }
  destruct Ho as [Ho|[used' Ho]]; rewrite Ho.
  - rewrite app_nil_r, Hd. split_and!; [done| |done].
    exists 1%nat. split; [lia|done].
  - destruct (IH (S k) used') as (IHo & (n & Hn & IHd) & IHlast); [lia|].
    replace (i - k)%nat with (S (i - S k)) by lia.
    split_and!; [done| |].
    + exists (S n). split; [lia|]. by rewrite dumped_app, Hd, IHd.
    + intros [Hin|Hin]%elem_of_app; [done|].
      destruct (IHlast Hin) as (IHd' & IHr & IHl).
      rewrite dumped_app, renamed_app, fmap_app, Hd, IHd', IHr.
      rewrite (Hren used' Ho), last_app, IHl.
      split_and!; done.
Qed.

(** When the console writes every line and every write and rename before
    region [i] succeeds, the loop gets as far as dumping region [i]. *)
Lemma for_each_on_reaches (console : message → bool) (w : World)
    (args : Args) (content : list byte) (positions : list Z) (m k i : nat)
    (used_names : gmap string nat) :
  (k ≤ i < k + m)%nat →
  (∀ line, console line = true) →
  (∀ j, (k ≤ j < i)%nat → write_ok w (temp_path args j) = true) →
  (∀ src dst, rename_ok w src dst = true) →
  DumpFile (temp_path args i) (chunk_at content positions i)
  ∈ (for_each (region_body_on console w args content positions) (seq k m)
       used_names).1.
Proof.
  intros Hi Hconsole Hwrite Hrename. revert k used_names Hi Hwrite.
  induction m as [|m IH]; intros k used_names Hi Hwrite; [lia|].
  change (seq k (S m)) with (k :: seq (S k) m).
  rewrite for_each_cons, bind_trace.
  destruct (region_body_on_shape console w args content positions k
              used_names) as (Hd & _ & _ & _).
  destruct (decide (i = k)) as [->|Hik].
  { apply elem_of_app. left. rewrite elem_of_dumped, Hd.
    by apply list_elem_of_singleton. }
  apply elem_of_app. right.
  rewrite region_body_on_writes by done.
  destruct (region_body_shape w args content positions k used_names)
    as (_ & Ho & _).
  rewrite Ho, Hwrite, Hrename by lia. cbn [andb].
  apply IH; [lia|]. intros j Hj. apply Hwrite. lia.
Qed.

(** ** The whole run on any console *)

Lemma main_on_dumped_prefix (console : message → bool) (w : World)
    (args : Args) (content : list byte) (positions : list Z) :
  read_file w (input args) = Some content →
  scan content = Some positions →
  ∃ n, (n ≤ length positions)%nat ∧
    dumped (main_on console w args).1
    = (λ j, (temp_path args j, chunk_at content positions j)) <$> seq 0 n.
Proof.
  intros Hread Hscan. unfold main_on, print_on, call.
  destruct (path_exists w (input args)); cbn [negb];
    [|exists O; split; [lia|]; by destruct (console _)].
  rewrite Hread, Hscan.
  destruct positions as [|p ps];
    [exists O; split; [lia|]; by destruct (console _)|].
  io_steps.
  destruct (console (MsgFound _)); [|by exists O; split; [lia|]].
  destruct (makedirs_ok w (out_dir args)); [|by exists O; split; [lia|]].
  destruct (for_each_on_prefix console w args content (p :: ps)
              (length (p :: ps)) 0 ∅) as ((n & Hn & Hd) & _).
  exists n. split; [done|].
  rewrite !dumped_app, Hd. cbn [dumped omap list_omap app].
  destruct (for_each _ _ _).2; cbn [fst snd]; by rewrite ?app_nil_r.
Qed.

Lemma main_on_write_fails (console : message → bool) (w : World)
    (args : Args) (content : list byte) (positions : list Z) (i : nat) :
  path_exists w (input args) = true →
  read_file w (input args) = Some content →
  scan content = Some positions →
  (i < length positions)%nat →
  write_ok w (temp_path args i) = false →
  let r := main_on console w args in
  let region := λ j, (temp_path args j, chunk_at content positions j) in
  let failed := DumpFile (temp_path args i) (chunk_at content positions i) in
  r.2 = Raise ∧
  (∃ n, (n ≤ S i)%nat ∧ dumped r.1 = region <$> seq 0 n) ∧
  (failed ∈ r.1 →
     dumped r.1 = region <$> seq 0 (S i) ∧
     (renamed r.1).*1 = temp_path args <$> seq 0 i ∧
     last r.1 = Some failed).
Proof.
  intros Hex Hread Hscan Hi Hfail. cbn zeta. unfold main_on, print_on, call.
  rewrite Hex, Hread, Hscan. cbn [negb].
  destruct positions as [|p ps]; [simpl in Hi; lia|].
  destruct (for_each_on_write_fails console w args content (p :: ps)
              (length (p :: ps)) 0 i ∅) as (Ho & (n & Hn & Hd) & Hlast);
    [lia|done|].
  rewrite Nat.sub_0_r in *.
  io_steps.
  destruct (console (MsgFound _)).
  2:{ split_and!; [done|by exists O; split; [lia|]|].
      intros Hin. by repeat (apply elem_of_cons in Hin as [?|Hin]; [done|]);
        apply elem_of_nil in Hin. }
  destruct (makedirs_ok w (out_dir args)).
  2:{ split_and!; [done|by exists O; split; [lia|]|].
      intros Hin. by repeat (apply elem_of_cons in Hin as [?|Hin]; [done|]);
        apply elem_of_nil in Hin. }
  rewrite Ho. cbn [fst snd]. rewrite !app_nil_r.
  split_and!; [done| |].
  - exists n. split; [done|]. by rewrite !dumped_app, Hd.
  - intros Hin.
    destruct Hlast as (Hd' & Hr & Hl).
    { by repeat (apply elem_of_cons in Hin as [?|Hin]; [done|]). }
    rewrite !dumped_app, !renamed_app, !fmap_app, Hd', Hr.
    split_and!; [done..|].
    change ([ReadFile (input args)] ++ [Print (MsgFound (length (p :: ps)))]
            ++ [MakeDirs (out_dir args)] ++ ?t)
      with ([ReadFile (input args); Print (MsgFound (length (p :: ps)));
             MakeDirs (out_dir args)] ++ t).
    by rewrite last_app, Hl.
Qed.

Lemma main_on_reaches (console : message → bool) (w : World) (args : Args)
    (content : list byte) (positions : list Z) (i : nat) :
  path_exists w (input args) = true →
  read_file w (input args) = Some content →
  scan content = Some positions →
  (i < length positions)%nat →
  (∀ line, console line = true) →
  makedirs_ok w (out_dir args) = true →
  (∀ j, (j < i)%nat → write_ok w (temp_path args j) = true) →
  (∀ src dst, rename_ok w src dst = true) →
  DumpFile (temp_path args i) (chunk_at content positions i)
  ∈ (main_on console w args).1.
Proof.
  intros Hex Hread Hscan Hi Hconsole Hmk Hwrite Hrename.
  unfold main_on, print_on, call. rewrite Hex, Hread, Hscan. cbn [negb].
  destruct positions as [|p ps]; [simpl in Hi; lia|].
  io_steps. rewrite (Hconsole (MsgFound (length (p :: ps)))), Hmk.
  cbn [fst snd].
  do 3 (apply elem_of_app; right). apply elem_of_app. left.
  apply for_each_on_reaches; [lia|done| |done].
  intros j Hj. apply Hwrite. lia.
Qed.

(** * The claims about a run that fails *)

(** C10.  Every chunk of a run starts with the four marker bytes and is at
    least four bytes long: two offsets of the scan next to each other are at
    least four apart, since the marker cannot overlap itself, and the last
    offset is at least four before the end of the buffer.  This holds for
    every chunk a run hands to [dump_file], on any console and any disk,
    also in a run that stops early; and with a console and a disk that work,
    the chunks handed to [dump_file] are all of them, in order. *)
Theorem regions_begin_with_marker (content : list byte) (positions : list Z) :
  scan content = Some positions →
  (∀ i chunk, regions content positions !! i = Some chunk →
     take 4 chunk = DTB_HEADER ∧ (4 ≤ length chunk)%nat) ∧
  (∀ i p q, positions !! i = Some p → positions !! S i = Some q →
     p + 4 ≤ q) ∧
  (∀ i p, positions !! i = Some p → p + 4 ≤ Z.of_nat (length content)) ∧
  (∀ console w args path chunk,
     read_file w (input args) = Some content →
     DumpFile path chunk ∈ (main_on console w args).1 →
     take 4 chunk = DTB_HEADER ∧ (4 ≤ length chunk)%nat) ∧
  (∀ console w args,
     disk_ok w →
     (∀ line, console line = true) →
     path_exists w (input args) = true →
     read_file w (input args) = Some content →
     (dumped (main_on console w args).1).*2 = regions content positions).
Proof.
  intros Hscan. pose proof (scan_inv _ _ Hscan) as ->.
  assert (∀ i chunk, regions content (marker_offsets content) !! i = Some chunk →
            take 4 chunk = DTB_HEADER ∧ (4 ≤ length chunk)%nat) as Hregions.
  { intros i chunk. rewrite regions_lookup.
    destruct (marker_offsets content !! i) as [p|] eqn:Hp; [|done].
    intros [= <-].
    destruct (marker_offsets_lookup _ _ _ Hp) as (n & -> & Hocc & Hb).
    apply slice_of_marker; [done|].
    destruct (marker_offsets content !! S i) as [q|] eqn:Hq; simpl.
    + by eapply marker_offsets_gap.
    + lia. }
  split_and!.
  - exact Hregions.
  - apply marker_offsets_gap.
  - intros i p (n & -> & _ & Hb)%marker_offsets_lookup. lia.
  - intros console w args path chunk Hread Hin.
    destruct (main_on_dumped_prefix console w args content
                (marker_offsets content) Hread Hscan) as (n & Hn & Hd).
    apply elem_of_dumped in Hin. rewrite Hd in Hin.
    apply list_elem_of_fmap in Hin as (j & [= _ ->] & Hj).
    apply elem_of_seq in Hj.
    apply (Hregions j). unfold regions.
    rewrite list_lookup_fmap, lookup_seq_lt by lia. done.
  - intros console w args Hdisk Hconsole Hex Hread.
    rewrite main_on_writes by done.
    destruct (marker_offsets content) as [|p ps] eqn:Hm.
    { unfold main. by rewrite Hex, Hread, Hscan. }
    destruct (main_disk_ok w args content (p :: ps)) as (_ & Hd & _);
      [done..|].
    rewrite Hd, <-list_fmap_compose. unfold regions.
    by apply list_fmap_ext.
Qed.

Lemma regions_begin_with_marker_witness :
  scan sample_image = Some [1; 7; 11] ∧
  take 4 [xd0; x0d; xfe; xed; x07] = DTB_HEADER ∧
  (4 ≤ length [xd0; x0d; xfe; xed; x07])%nat ∧
  (dumped (main_on console_writes_all sample_world sample_args).1).*2
  = regions sample_image [1; 7; 11].
Proof.
  pose proof (regions_begin_with_marker sample_image [1; 7; 11] eq_refl)
    as (Hregions & _ & _ & _ & Hrun).
  split; [reflexivity|]. split_and!.
  - apply (Hregions 2%nat). reflexivity.
  - apply (Hregions 2%nat). reflexivity.
  - apply Hrun; [apply sample_world_disk_ok|reflexivity..].
Defined.




(** C8, as the code has it.  A temporary file that cannot be written is not
    a per-region failure: the exception of [dump_file] is caught nowhere, so
    the run ends with an uncaught exception (exit status 1), and what was
    handed to [dump_file] stops at that region at the latest.  When the run
    gets as far as that region, it ends at the failed call: every region
    before it has been dumped and renamed, the failed call is the last thing
    the run does, and no region after it is attempted.  The run gets that
    far when the console writes every line, the output directory can be
    made, and every write and rename before that region succeeds.  An input
    that cannot be read ends the run in the same way, before any region. *)
Theorem write_failure_aborts_run (console : message → bool) (w : World)
    (args : Args) (content : list byte) (positions : list Z) (i : nat) :
  path_exists w (input args) = true →
  read_file w (input args) = Some content →
  scan content = Some positions →
  (i < length positions)%nat →
  write_ok w (temp_path args i) = false →
  let r := main_on console w args in
  let region := λ j, (temp_path args j, chunk_at content positions j) in
  let failed := DumpFile (temp_path args i) (chunk_at content positions i) in
  r.2 = Raise ∧
  exit_status r.2 = Some 1 ∧
  (∃ n, (n ≤ S i)%nat ∧ dumped r.1 = region <$> seq 0 n) ∧
  (failed ∈ r.1 →
     dumped r.1 = region <$> seq 0 (S i) ∧
     (renamed r.1).*1 = temp_path args <$> seq 0 i ∧
     last r.1 = Some failed) ∧
  ((∀ line, console line = true) →
   makedirs_ok w (out_dir args) = true →
   (∀ j, (j < i)%nat → write_ok w (temp_path args j) = true) →
   (∀ src dst, rename_ok w src dst = true) →
   failed ∈ r.1) ∧
  (∀ w',
     path_exists w' (input args) = true →
     read_file w' (input args) = None →
     main_on console w' args = ([ReadFile (input args)], Raise)).
Proof.
  intros Hex Hread Hscan Hi Hfail. cbn zeta.
  destruct (main_on_write_fails console w args content positions i)
    as (Ho & Hd & Hlast); [done..|].
  split_and!; [done|by rewrite Ho|done|done| |].
  - intros Hconsole Hmk Hwrite Hrename. by apply main_on_reaches.
  - intros w' Hex' Hread'. unfold main_on. by rewrite Hex', Hread'.
Qed.

Lemma write_failure_aborts_run_witness :
  (main_on console_writes_all world_unwritable_last sample_args).2 = Raise ∧
  dumped (main_on console_writes_all world_unwritable_last sample_args).1
  = (λ j, (temp_path sample_args j, chunk_at sample_image [1; 7; 11] j))
    <$> seq 0 3 ∧
  (renamed (main_on console_writes_all world_unwritable_last sample_args).1).*1
  = temp_path sample_args <$> seq 0 2 ∧
  last (main_on console_writes_all world_unwritable_last sample_args).1
  = Some (DumpFile "out/temp_02.dtb" [xd0; x0d; xfe; xed; x07]).
Proof.
  destruct (write_failure_aborts_run console_writes_all world_unwritable_last
              sample_args sample_image [1; 7; 11] 2)
    as (Ho & _ & _ & Hlast & Hreach & _);
    [reflexivity..|simpl; lia|reflexivity|].
  split; [exact Ho|]. apply Hlast, Hreach.
  - intros line. reflexivity.
  - reflexivity.
  - intros [|[|j]] Hj; [reflexivity|reflexivity|lia].
  - intros src dst. reflexivity.
Defined.

(** * Temporary files are moved away *)

Lemma temp_filename_no_hyphen (j : nat) :
  contains hyphen (temp_filename j) = false.
Proof.
  unfold temp_filename. by rewrite !contains_append, contains_fmt_02d.
Qed.

Lemma resolve_name_no_slash (used_names : gmap string nat) (n : string) :
  contains slash n = false →
  contains slash (resolve_name used_names n).2 = false.
Proof.
  intros Hn. unfold resolve_name.
  destruct (used_names !! n); [|done].
  pose proof (splitext_concat n) as Hcat.
  destruct (splitext n) as [base ext]. simpl in *.
  rewrite <-Hcat, contains_append in Hn.
  apply orb_false_iff in Hn as [Hbase Hext].
  by rewrite !contains_append, Hbase, Hext, contains_str_int.
Qed.

(** The final name of a region whose metadata holds no slash is a plain
    file name, and no temporary name. *)
Lemma final_name_plain (used_names : gmap string nat) (i : nat)
    (new_name : option string) :
  (∀ n, new_name = Some n → contains hyphen n = true) →
  (∀ n, new_name = Some n → contains slash n = false) →
  contains slash (final_name_of used_names i new_name).2 = false ∧
  ∀ j, (final_name_of used_names i new_name).2 ≠ temp_filename j.
Proof.
  intros Hhyphen Hslash. unfold final_name_of.
  destruct (truthy new_name) as [n|] eqn:Ht.
  - apply truthy_Some_inv in Ht as [-> _]. split.
    + by apply resolve_name_no_slash, Hslash.
    + intros j E.
      pose proof (resolve_name_hyphen used_names n (Hhyphen n eq_refl)) as Hh.
      by rewrite E, temp_filename_no_hyphen in Hh.
  - cbn [snd]. split.
    + unfold fallback_name. by rewrite !contains_append, contains_fmt_02d.
    + intros j. unfold fallback_name, temp_filename. discriminate.
Qed.

(** X8.  With a disk and a console that work, every temporary file is
    renamed: the sources of the renames are the paths handed to
    [dump_file], each once and in the same order, one per offset of the
    scan.  When no name read from the metadata holds a slash, every rename
    goes to a plain file name inside the output directory that is the
    temporary name of no region, so its destination is the temporary path of
    no region. *)
Theorem every_dump_is_renamed (console : message → bool) (w : World)
    (args : Args) (content : list byte) (positions : list Z) :
  disk_ok w →
  (∀ line, console line = true) →
  path_exists w (input args) = true →
  read_file w (input args) = Some content →
  scan content = Some positions →
  positions ≠ [] →
  let t := (main_on console w args).1 in
  (renamed t).*1 = (dumped t).*1 ∧
  (dumped t).*1 = temp_path args <$> seq 0 (length positions) ∧
  ((∀ i name, decode_at w args content positions i = Some name →
      contains slash name = false) →
   ∀ src dst, (src, dst) ∈ renamed t →
     ∃ name,
       dst = path_join (out_dir args) name ∧
       contains slash name = false ∧
       ∀ j, name ≠ temp_filename j ∧ dst ≠ temp_path args j).
Proof.
  intros Hdisk Hconsole Hex Hread Hscan Hne. cbn zeta.
  rewrite main_on_writes by done.
  destruct (main_disk_ok w args content positions) as (_ & Hd & Hr);
    [done..|].
  rewrite Hd, Hr, <-list_fmap_compose.
  split_and!.
  - rewrite (zip_with_sources (temp_path args)
               (λ _ name, path_join (out_dir args) name));
      [done|]. by rewrite length_names_from, length_fmap.
  - done.
  - intros Hslash src dst (k & i & name & [= -> ->] & Hi & Hname)
      %elem_of_lookup_zip_with.
    rewrite names_from_lookup, list_lookup_fmap in Hname.
    destruct (seq 0 (length positions) !! k) as [k'|]; [|done].
    cbn [fmap option_fmap option_map] in Hname. injection Hname as <-.
    destruct (final_name_plain
      (registry_after ∅ 0
         (take k (decode_at w args content positions
                    <$> seq 0 (length positions))))
      (0 + k) (decode_at w args content positions k')) as [Hplain Htemp].
    { intros n Hn. by apply decode_at_hyphen in Hn as [? _]. }
    { intros n Hn. by eapply Hslash. }
    eexists. split_and!; [done|done|]. intros j. split; [done|].
    unfold temp_path. intros E%path_join_inj; [by eapply Htemp| |done].
    by apply str_startswith_contains.
Qed.

Lemma every_dump_is_renamed_witness :
  (renamed (main_on console_writes_all sample_world sample_args).1).*1
  = ["out/temp_00.dtb"; "out/temp_01.dtb"; "out/temp_02.dtb"].
Proof.
  destruct (every_dump_is_renamed console_writes_all sample_world sample_args
              sample_image [1; 7; 11] sample_world_disk_ok)
    as (-> & -> & _); [reflexivity..|discriminate|reflexivity].
Defined.
